(** * Vital resources, defeat, looting and consumables of the ainneve typeclasses

    A shallow embedding of the behaviour found in [typeclasses/characters.py]
    ([BaseCharacter], [Character]) and [typeclasses/objects.py]
    ([ConsumableObject], [Runestone]), followed by the properties of that
    behaviour.

    Conventions of the embedding:
    - an Evennia attribute [self.db.x] is an [attr]: [None] when the attribute
      is unset (Evennia hands back Python's [None]), [Some z] for an integer;
    - the Python idiom [self.db.x or d] is [or_default]: every falsy stored
      value ([None] and [0]) reads as [d];
    - a method is a computation in the monad [M]: it threads the character and
      appends to a trace every call that leaves the class (messages, the combat
      handler, the dice service);
    - dynamic dispatch on the class is a test of [is_pc]
      ([Character] sets it, [BaseCharacter] does not);
    - Python's true division gives an IEEE double; [hurt_level] is computed
      with exact rationals, on which the bands are proved, and a second time
      with primitive doubles ([hurt_level_double]), on which the cases that
      matter are evaluated. *)

From Stdlib Require Import ZArith QArith Qminmax Lia Lqa List.
From Stdlib Require Import Floats Uint63.
From stdpp Require Import gmap strings.

Local Open Scope Z_scope.

(** ** Stored attributes *)

Definition attr : Type := option Z.

(** [v or d] for a stored integer attribute. *)
Definition or_default (v : attr) (d : Z) : Z :=
  match v with
  | Some z => if Z.eqb z 0 then d else z
  | None => d
  end.

(** The room a character stands in, as far as this code reads it. *)
Record Location : Type := mkLocation {
  allow_death : bool;
  allow_pvp : bool
}.

Record Char : Type := mkChar {
  is_pc : bool;
  key : string;
  db_hp : attr;
  db_hp_max : attr;
  db_mana : attr;
  db_mana_max : attr;
  db_stamina : attr;
  db_stamina_max : attr;
  db_strength : attr;
  db_will : attr;
  db_cunning : attr;
  db_coins : attr;
  ndb_combat : bool;
  location : Location
}.

(** *** Property getters *)

Definition hp (c : Char) : Z := or_default (db_hp c) 1.
Definition hp_max (c : Char) : Z := or_default (db_hp_max c) 1.
Definition mana (c : Char) : Z := or_default (db_mana c) 1.
Definition mana_max (c : Char) : Z := or_default (db_mana_max c) 1.
Definition stamina (c : Char) : Z := or_default (db_stamina c) 1.
Definition stamina_max (c : Char) : Z := or_default (db_stamina_max c) 1.
Definition strength (c : Char) : Z := or_default (db_strength c) 1.
Definition will (c : Char) : Z := or_default (db_will c) 1.
Definition cunning (c : Char) : Z := or_default (db_cunning c) 1.

(** [Character.coins] is [self.db.coins or 0].  [BaseCharacter.at_pay] reads
    [self.coins] too, but the accessor of the non-player classes is declared
    outside the two source files; the same accessor is used for them. *)
Definition coins (c : Char) : Z := or_default (db_coins c) 0.

(** *** Property setters *)

Definition with_hp (v : Z) (c : Char) : Char :=
  mkChar (is_pc c) (key c) (Some v) (db_hp_max c) (db_mana c) (db_mana_max c)
         (db_stamina c) (db_stamina_max c) (db_strength c) (db_will c)
         (db_cunning c) (db_coins c) (ndb_combat c) (location c).

Definition with_hp_max (v : Z) (c : Char) : Char :=
  mkChar (is_pc c) (key c) (db_hp c) (Some v) (db_mana c) (db_mana_max c)
         (db_stamina c) (db_stamina_max c) (db_strength c) (db_will c)
         (db_cunning c) (db_coins c) (ndb_combat c) (location c).

Definition with_mana (v : Z) (c : Char) : Char :=
  mkChar (is_pc c) (key c) (db_hp c) (db_hp_max c) (Some v) (db_mana_max c)
         (db_stamina c) (db_stamina_max c) (db_strength c) (db_will c)
         (db_cunning c) (db_coins c) (ndb_combat c) (location c).

Definition with_stamina (v : Z) (c : Char) : Char :=
  mkChar (is_pc c) (key c) (db_hp c) (db_hp_max c) (db_mana c) (db_mana_max c)
         (Some v) (db_stamina_max c) (db_strength c) (db_will c)
         (db_cunning c) (db_coins c) (ndb_combat c) (location c).

Definition with_coins (v : Z) (c : Char) : Char :=
  mkChar (is_pc c) (key c) (db_hp c) (db_hp_max c) (db_mana c) (db_mana_max c)
         (db_stamina c) (db_stamina_max c) (db_strength c) (db_will c)
         (db_cunning c) (Some v) (ndb_combat c) (location c).

(** ** Trace of outside calls *)

(** The texts handed to the messaging collaborator, with the numbers they
    interpolate. *)
Inductive message : Type :=
| YouHealYourself (healed : Z)              (* "You heal yourself for {healed} health." *)
| HealsYou (healer_key : string) (healed : Z) (* "{healer.key} heals you for {healed} health." *)
| YouAreHealed (healed : Z)                 (* "You are healed for {healed} health." *)
| YouDie                                    (* "$You() $conj(die)." *)
| YouYield                                  (* "$You() $conj(yield), beaten and out of the fight." *)
| YouCollapse                               (* "$You() $conj(collapse) in a heap. ..." *)
| LootsYouFor (stolen : Z).                 (* "$You(looter) loots $You() for {stolen} coins!" *)

Inductive event : Type :=
| Msg (m : message)            (* self.msg(...) *)
| MsgContents (m : message)    (* self.location.msg_contents(...) *)
| CombatRemove                 (* self.combat.remove(self) *)
| RollDeath                    (* rules.dice.roll_death(self) *)
| EnterDefeat.                 (* entry of at_defeat, recorded to count the hook's calls *)

Definition is_EnterDefeat (e : event) : bool :=
  match e with EnterDefeat => true | _ => false end.

Definition is_RollDeath (e : event) : bool :=
  match e with RollDeath => true | _ => false end.

Definition count_events (p : event -> bool) (tr : list event) : nat :=
  length (filter (fun e => p e = true) tr).

(** ** The method monad: state of [self] and trace *)

Definition M (A : Type) : Type := Char -> A * Char * list event.

Definition ret {A} (a : A) : M A := fun c => (a, c, []).

Definition bind {A B} (m : M A) (k : A -> M B) : M B :=
  fun c =>
    let '(a, c1, t1) := m c in
    let '(b, c2, t2) := k a c1 in
    (b, c2, t1 ++ t2).

Notation "x <- m ;; k" := (bind m (fun x => k))
  (at level 100, m at next level, right associativity).
Notation "m ;; k" := (bind m (fun _ => k))
  (at level 100, right associativity).

Definition read {A} (f : Char -> A) : M A := fun c => (f c, c, []).
Definition modify (f : Char -> Char) : M unit := fun c => (tt, f c, []).
Definition emit (e : event) : M unit := fun c => (tt, c, [e]).
Definition when (b : bool) (m : M unit) : M unit := if b then m else ret tt.

Definition state_of {A} (r : A * Char * list event) : Char := snd (fst r).
Definition trace_of {A} (r : A * Char * list event) : list event := snd r.

(** Who heals: [healer is self], another object, or nobody. *)
Inductive healer : Type :=
| NoHealer
| HealerSelf
| HealerOther (healer_key : string).

(** The text [heal] sends: the three branches on [healer]. *)
Definition heal_message (who : healer) (healed : Z) : message :=
  match who with
  | HealerSelf => YouHealYourself healed
  | HealerOther k => HealsYou k healed
  | NoHealer => YouAreHealed healed
  end.

Section Characters.

(** The dice service is outside this code.  [rules.dice.roll_death(self)]
    may change the character in any way: it is a parameter. *)
Variable roll_death : Char -> Char.

(** *** [BaseCharacter.at_death] and [Character.at_death] *)

Definition BaseCharacter_at_death : M unit :=
  in_combat <- read ndb_combat ;;
  when in_combat (emit CombatRemove) ;;
  emit (MsgContents YouDie).

Definition Character_at_death : M unit :=
  emit (MsgContents YouCollapse).

Definition at_death : M unit :=
  pc <- read is_pc ;;
  if pc then Character_at_death else BaseCharacter_at_death.

(** *** [BaseCharacter.at_defeat] and [Character.at_defeat] *)

Definition BaseCharacter_at_defeat : M unit :=
  at_death.

Definition Character_at_defeat : M unit :=
  loc <- read location ;;
  if allow_death loc then
    emit RollDeath ;;
    modify roll_death
  else
    emit (MsgContents YouYield) ;;
    m <- read hp_max ;;
    modify (with_hp m).

Definition at_defeat : M unit :=
  emit EnterDefeat ;;
  pc <- read is_pc ;;
  if pc then Character_at_defeat else BaseCharacter_at_defeat.

(** *** [BaseCharacter.heal] *)

Definition heal (amount : Z) (who : healer) : M unit :=
  m <- read hp_max ;;
  h <- read hp ;;
  let damage := m - h in
  let healed := Z.min damage amount in
  h0 <- read hp ;;
  modify (with_hp (h0 + healed)) ;;
  emit (Msg (heal_message who healed)).

(** *** [BaseCharacter.at_damage] *)

Definition at_damage (damage : Z) : M unit :=
  h <- read hp ;;
  modify (with_hp (h - damage)) ;;
  h' <- read hp ;;
  when (h' <=? 0) at_defeat.

(** *** [spend_stamina], [spend_mana] *)

Definition spend_stamina (amount : Z) : M unit :=
  s <- read stamina ;;
  modify (with_stamina (s - amount)).

Definition spend_mana (amount : Z) : M unit :=
  m <- read mana ;;
  modify (with_mana (m - amount)).

(** *** [BaseCharacter.at_recovery] *)

Definition at_recovery : M unit :=
  s <- read stamina ;;
  str <- read strength ;;
  modify (with_stamina (s + str)) ;;
  s' <- read stamina ;;
  smax <- read stamina_max ;;
  when (s' >? smax) (smax' <- read stamina_max ;; modify (with_stamina smax')) ;;
  m <- read mana ;;
  w <- read will ;;
  modify (with_mana (m + w)) ;;
  m' <- read mana ;;
  mmax <- read mana_max ;;
  when (m' >? mmax) (mmax' <- read mana_max ;; modify (with_mana mmax')).

(** *** [BaseCharacter.at_pay] *)

Definition at_pay (amount : Z) : M Z :=
  have <- read coins ;;
  let amount := Z.min amount have in
  have' <- read coins ;;
  modify (with_coins (have' - amount)) ;;
  ret amount.

(** *** Sequences of calls on one character *)

Inductive call : Type :=
| CallDamage (damage : Z)
| CallHeal (amount : Z) (who : healer)
| CallRecovery.

Definition do_call (k : call) : M unit :=
  match k with
  | CallDamage d => at_damage d
  | CallHeal a who => heal a who
  | CallRecovery => at_recovery
  end.

Fixpoint do_calls (ks : list call) : M unit :=
  match ks with
  | [] => ret tt
  | k :: ks' => do_call k ;; do_calls ks'
  end.

End Characters.

(** ** [BaseCharacter.hurt_level] *)

(** [a < b] and [a <= b] on rationals, as booleans. *)
Definition Qltb (a b : Q) : bool := negb (Qle_bool b a).
Definition Qleb (a b : Q) : bool := Qle_bool a b.

(** The chained comparison [lo < p <= hi]. *)
Definition in_band (lo p hi : Q) : bool := Qltb lo p && Qleb p hi.

(** [max(0, min(100, 100 * (hp / hp_max)))]; [hp_max] is never [0], its
    getter turns a stored [0] into [1]. *)
Definition percent_of (h m : Z) : Q :=
  Qmax 0 (Qmin 100 (100 * (inject_Z h / inject_Z m))).

(** The [if]/[elif] chain; falling off its end is Python's [None]. *)
Definition hurt_level_of (percent : Q) : option string :=
  if in_band 95 percent 100 then Some "|gPerfect|n"
  else if in_band 80 percent 95 then Some "|gScraped|n"
  else if in_band 60 percent 80 then Some "|GBruised|n"
  else if in_band 45 percent 60 then Some "|yHurt|n"
  else if in_band 30 percent 45 then Some "|yWounded|n"
  else if in_band 15 percent 30 then Some "|rBadly wounded|n"
  else if in_band 1 percent 15 then Some "|rBarely hanging on|n"
  else if Qeq_bool percent 0 then Some "|RCollapsed!|n"
  else None.

Definition hurt_level (c : Char) : option string :=
  hurt_level_of (percent_of (hp c) (hp_max c)).

(** The status of an HP ratio [r = hp / hp_max]. *)
Definition hurt_level_of_ratio (r : Q) : option string :=
  hurt_level_of (Qmax 0 (Qmin 100 (100 * r))).

(** *** The same chain in IEEE doubles *)

(** The double nearest to an integer; exact below [2^53], which is where
    [hp / hp_max] in Python equals the quotient of the two doubles. *)
Definition double_of_Z (z : Z) : float :=
  if z <? 0 then PrimFloat.opp (PrimFloat.of_uint63 (Uint63.of_Z (- z)))
  else PrimFloat.of_uint63 (Uint63.of_Z z).

(** [min(100, x)] and [max(0, x)] as Python computes them: the first argument
    unless the second is smaller, respectively larger. *)
Definition min_100 (x : float) : float :=
  if PrimFloat.ltb x 100%float then x else 100%float.

Definition max_0 (x : float) : float :=
  if PrimFloat.ltb 0%float x then x else 0%float.

Definition percent_double (h m : Z) : float :=
  max_0 (min_100 (PrimFloat.mul 100%float
                    (PrimFloat.div (double_of_Z h) (double_of_Z m)))).

Definition in_band_double (lo p hi : float) : bool :=
  PrimFloat.ltb lo p && PrimFloat.leb p hi.

Definition hurt_level_double_of (percent : float) : option string :=
  if in_band_double 95 percent 100 then Some "|gPerfect|n"
  else if in_band_double 80 percent 95 then Some "|gScraped|n"
  else if in_band_double 60 percent 80 then Some "|GBruised|n"
  else if in_band_double 45 percent 60 then Some "|yHurt|n"
  else if in_band_double 30 percent 45 then Some "|yWounded|n"
  else if in_band_double 15 percent 30 then Some "|rBadly wounded|n"
  else if in_band_double 1 percent 15 then Some "|rBarely hanging on|n"
  else if PrimFloat.eqb percent 0 then Some "|RCollapsed!|n"
  else None.

Definition hurt_level_double (c : Char) : option string :=
  hurt_level_double_of (percent_double (hp c) (hp_max c)).

(** The eight labels. *)
Definition hurt_labels : list string :=
  [ "|gPerfect|n"; "|gScraped|n"; "|GBruised|n"; "|yHurt|n"; "|yWounded|n";
    "|rBadly wounded|n"; "|rBarely hanging on|n"; "|RCollapsed!|n" ].

(** ** Consumables ([typeclasses/objects.py]) *)

(** The two classes that define [at_post_use].  [Runestone] inherits from
    [WeaponObject] and [ConsumableObject] and overrides the hook. *)
Inductive item_class : Type :=
| ConsumableObject
| Runestone.

Record Item : Type := mkItem {
  item_class_of : item_class;
  item_key : string;
  db_uses : attr;
  deleted : bool      (* set by [self.delete()] *)
}.

Inductive item_event : Type :=
| UsedUp (item : string).     (* user.msg("{self.key} was used up.") *)

(** [ConsumableObject.uses]: [self.db.uses or 1]. *)
Definition uses (i : Item) : Z := or_default (db_uses i) 1.

Definition with_uses (v : Z) (i : Item) : Item :=
  mkItem (item_class_of i) (item_key i) (Some v) (deleted i).

Definition delete (i : Item) : Item :=
  mkItem (item_class_of i) (item_key i) (db_uses i) true.

Definition ConsumableObject_at_post_use (i : Item) : Item * list item_event :=
  let i1 := with_uses (uses i - 1) i in
  if uses i1 <=? 0 then (delete i1, [UsedUp (item_key i1)])
  else (i1, []).

Definition Runestone_at_post_use (i : Item) : Item * list item_event :=
  (with_uses (uses i - 1) i, []).

Definition at_post_use (i : Item) : Item * list item_event :=
  match item_class_of i with
  | ConsumableObject => ConsumableObject_at_post_use i
  | Runestone => Runestone_at_post_use i
  end.

(** [Runestone.refresh]. *)
Definition refresh (i : Item) : Item := with_uses 1 i.

(** [n] uses in a row. *)
Fixpoint use_times (n : nat) (i : Item) : Item :=
  match n with
  | O => i
  | S n' => use_times n' (fst (at_post_use i))
  end.

(** ** Looting: two characters in the object store *)

(** Looter and victim are objects of the same store and may be the same
    object: updates go through the store. *)

(** Run a method on the object [who]; [None] when there is no such object. *)
Definition on_object {A} (who : nat) (m : M A) (w : gmap nat Char)
  : option (A * gmap nat Char * list event) :=
  match w !! who with
  | Some c => let '(a, c', t) := m c in Some (a, <[who := c']> w, t)
  | None => None
  end.

(** [looter.coins += stolen]. *)
Definition add_coins (stolen : Z) : M unit :=
  have <- read coins ;;
  modify (with_coins (have + stolen)).

(** [BaseCharacter.at_looted], with [max_steal] the result of
    [rules.dice.roll("1d10")]. *)
Definition BaseCharacter_at_looted (victim looter : nat) (max_steal : Z)
    (w : gmap nat Char) : option (gmap nat Char * list event) :=
  match on_object victim (at_pay max_steal) w with
  | Some (stolen, w1, t1) =>
      match on_object looter (add_coins stolen) w1 with
      | Some (_, w2, t2) =>
          Some (w2, t1 ++ t2 ++ [MsgContents (LootsYouFor stolen)])
      | None => None
      end
  | None => None
  end.

(** [Character.at_looted]: [pass]. *)
Definition Character_at_looted (victim looter : nat) (max_steal : Z)
    (w : gmap nat Char) : option (gmap nat Char * list event) :=
  Some (w, []).

(** Dispatch on the class of the victim. *)
Definition at_looted (victim looter : nat) (max_steal : Z)
    (w : gmap nat Char) : option (gmap nat Char * list event) :=
  match w !! victim with
  | Some v =>
      if is_pc v then Character_at_looted victim looter max_steal w
      else BaseCharacter_at_looted victim looter max_steal w
  | None => None
  end.

(** [BaseCharacter.at_do_loot]: [defeated_enemy.at_looted(self)]. *)
Definition at_do_loot (looter defeated_enemy : nat) (max_steal : Z)
    (w : gmap nat Char) : option (gmap nat Char * list event) :=
  at_looted defeated_enemy looter max_steal w.

(** The coins of an object of the store. *)
Definition coins_of (w : gmap nat Char) (who : nat) : option Z :=
  coins <$> (w !! who).

(** ** The pool invariants *)

(** [0 <= current <= maximum] and [maximum >= 1]. *)
Definition pool_ok (current maximum : Z) : Prop :=
  0 <= current <= maximum /\ 1 <= maximum.

(** The same without the lower bound on [current]. *)
Definition pool_capped (current maximum : Z) : Prop :=
  current <= maximum /\ 1 <= maximum.

(** The invariant on the three pools, as the getters show them. *)
Definition pools_ok (c : Char) : Prop :=
  pool_ok (hp c) (hp_max c)
  /\ pool_ok (stamina c) (stamina_max c)
  /\ pool_ok (mana c) (mana_max c).

(** HP capped, stamina and mana within their bounds. *)
Definition pools_capped (c : Char) : Prop :=
  pool_capped (hp c) (hp_max c)
  /\ pool_ok (stamina c) (stamina_max c)
  /\ pool_ok (mana c) (mana_max c).

(** Recovery rates that do not drain. *)
Definition recovers (c : Char) : Prop :=
  0 <= strength c /\ 0 <= will c.

(** A call that does not carry negative damage. *)
Definition no_negative_damage (k : call) : Prop :=
  match k with
  | CallDamage d => 0 <= d
  | _ => True
  end.

(** What the getter of a pool shows once [v] was written: [v or 1]. *)
Definition reads_back (v : Z) : Z := or_default (Some v) 1.

(** What the getter of a pool shows after one recovery step: the pool is
    raised by [rate] and cut back to [maximum] when it reads above it. *)
Definition recovered (current rate maximum : Z) : Z :=
  if reads_back (current + rate) >? maximum
  then reads_back maximum
  else reads_back (current + rate).

(** ** Objects as [at_object_creation] leaves them *)

(** [BaseCharacter.at_object_creation]; it does not set [coins]. *)
Definition new_BaseCharacter (k : string) (loc : Location) : Char :=
  mkChar false k (Some 1) (Some 1) (Some 1) (Some 1) (Some 1) (Some 1)
         (Some 1) (Some 1) (Some 1) None false loc.

(** [Character.at_object_creation]. *)
Definition new_Character (k : string) (loc : Location) : Char :=
  mkChar true k (Some 10) (Some 10) (Some 10) (Some 10) (Some 4) (Some 4)
         (Some 1) (Some 1) (Some 1) (Some 0) false loc.

(** [ConsumableObject.at_object_creation]: one use. *)
Definition new_item (cls : item_class) (k : string) : Item :=
  mkItem cls k (Some 1) false.

(** A room where death is forbidden and one where it is allowed. *)
Definition sanctuary : Location := mkLocation false false.
Definition wilderness : Location := mkLocation true true.

(** A non-player character and a player character with given HP. *)
Definition goblin (h m : Z) : Char :=
  with_hp h (with_hp_max m (new_BaseCharacter "goblin" wilderness)).

Definition hero (h m : Z) (loc : Location) : Char :=
  with_hp h (with_hp_max m (new_Character "hero" loc)).

(** A death roll that leaves the character as it is (it only narrates). *)
Definition roll_death_idle (c : Char) : Char := c.

(** ** Repeated calls *)

(** [n] recovery ticks. *)
Fixpoint recover_times (n : nat) (c : Char) : Char :=
  match n with
  | O => c
  | S n' => recover_times n' (state_of (at_recovery c))
  end.

(** [n] calls of [spend_stamina] with the same amount. *)
Fixpoint spend_stamina_times (n : nat) (amount : Z) (c : Char) : Char :=
  match n with
  | O => c
  | S n' => spend_stamina_times n' amount (state_of (spend_stamina amount c))
  end.

(** A call that carries neither negative damage nor a negative heal. *)
Definition no_negative_amount (k : call) : Prop :=
  match k with
  | CallDamage d => 0 <= d
  | CallHeal a _ => 0 <= a
  | CallRecovery => True
  end.

(** What a player character keeps where death is forbidden: the class, the
    room, the maximum [m], and HP between 1 and [m]. *)
Definition safe_at (m : Z) (c : Char) : Prop :=
  is_pc c = true /\ allow_death (location c) = false
  /\ hp_max c = m /\ 1 <= hp c <= m.

(** The victim is looted once for each roll, by the same looter. *)
Fixpoint loot_times (victim looter : nat) (rolls : list Z) (w : gmap nat Char)
  : option (gmap nat Char) :=
  match rolls with
  | [] => Some w
  | r :: rolls' =>
      match BaseCharacter_at_looted victim looter r w with
      | Some (w', _) => loot_times victim looter rolls' w'
      | None => None
      end
  end.


(** ** The cached character class *)

Section ClassCache.

(** [CharacterClass] and [CharacterClasses.get] come from
    [world.characters.classes]; they are parameters. *)
Variable CharacterClass : Type.
Variable CharacterClasses_get : option string -> option CharacterClass.

(** The two slots the [cclass] property works on: the stored key
    [self.db.cclass_key] and the cache [self.ndb.cclass]. *)
Record ClassSlots : Type := mkClassSlots {
  db_cclass_key : option string;
  ndb_cclass : option CharacterClass
}.

(** The [cclass_key] setter. *)
Definition set_cclass_key (v : option string) (s : ClassSlots) : ClassSlots :=
  mkClassSlots v (ndb_cclass s).

(** The [cclass] property: the cache when it is filled, else a lookup whose
    result is stored in the cache. *)
Definition cclass (s : ClassSlots) : option CharacterClass * ClassSlots :=
  match ndb_cclass s with
  | Some k => (Some k, s)
  | None =>
      let k := CharacterClasses_get (db_cclass_key s) in
      (k, mkClassSlots (db_cclass_key s) k)
  end.

End ClassCache.

Arguments mkClassSlots {CharacterClass} _ _.
Arguments db_cclass_key {CharacterClass} _.
Arguments ndb_cclass {CharacterClass} _.
Arguments set_cclass_key {CharacterClass} _ _.
Arguments cclass {CharacterClass} _ _.

(** * Properties *)

(** ** The getters and the setters *)

Lemma or_default_some (z d : Z) : z <> 0 -> or_default (Some z) d = z.
Proof.
  intros Hz. unfold or_default.
  destruct (Z.eqb_spec z 0) as [E | _]; [contradiction | reflexivity].
Qed.

Lemma or_default_written (z d : Z) :
  or_default (Some z) d = if z =? 0 then d else z.
Proof. reflexivity. Qed.

Lemma or_default_falsy (v : attr) (d : Z) :
  v = None \/ v = Some 0 -> or_default v d = d.
Proof. intros [-> | ->]; reflexivity. Qed.

Lemma or_default_nonzero (v : attr) (d : Z) : d <> 0 -> or_default v d <> 0.
Proof.
  intros Hd. destruct v as [z |]; simpl; [| exact Hd].
  destruct (Z.eqb_spec z 0); assumption.
Qed.

Lemma hp_nonzero (c : Char) : hp c <> 0.
Proof. apply or_default_nonzero. discriminate. Qed.

Lemma hp_max_nonzero (c : Char) : hp_max c <> 0.
Proof. apply or_default_nonzero. discriminate. Qed.

Lemma hp_with_hp (v : Z) (c : Char) :
  hp (with_hp v c) = if v =? 0 then 1 else v.
Proof. reflexivity. Qed.

Lemma stamina_with_stamina (v : Z) (c : Char) :
  stamina (with_stamina v c) = if v =? 0 then 1 else v.
Proof. reflexivity. Qed.

Lemma mana_with_mana (v : Z) (c : Char) :
  mana (with_mana v c) = if v =? 0 then 1 else v.
Proof. reflexivity. Qed.

Lemma coins_with_coins (v : Z) (c : Char) : coins (with_coins v c) = v.
Proof.
  unfold coins, with_coins; simpl.
  destruct (Z.eqb_spec v 0) as [-> | _]; reflexivity.
Qed.

(** ** Counting in traces *)

Lemma count_events_app (p : event -> bool) (t1 t2 : list event) :
  count_events p (t1 ++ t2) = (count_events p t1 + count_events p t2)%nat.
Proof.
  unfold count_events. induction t1 as [| e t1 IH]; simpl; [reflexivity |].
  rewrite !filter_cons. destruct (decide (p e = true)); simpl; lia.
Qed.

Lemma count_events_cons (p : event -> bool) (e : event) (t : list event) :
  count_events p (e :: t)
  = ((if p e then 1 else 0) + count_events p t)%nat.
Proof.
  unfold count_events. rewrite filter_cons.
  destruct (decide (p e = true)) as [E | E].
  - rewrite E. reflexivity.
  - destruct (p e); [contradiction E; reflexivity | reflexivity].
Qed.

(** ** Unfolding the methods *)

(** [at_damage] writes [hp - damage] and then tests the getter. *)
Lemma at_damage_unfold (roll_death : Char -> Char) (d : Z) (c : Char) :
  at_damage roll_death d c
  = if hp (with_hp (hp c - d) c) <=? 0
    then at_defeat roll_death (with_hp (hp c - d) c)
    else (tt, with_hp (hp c - d) c, []).
Proof.
  unfold at_damage, bind, read, modify, when, ret. cbn -[at_defeat hp with_hp Z.leb].
  destruct (hp (with_hp (hp c - d) c) <=? 0); [| reflexivity].
  destruct (at_defeat roll_death (with_hp (hp c - d) c)) as [[[] c'] t].
  reflexivity.
Qed.

(** The test [self.hp <= 0] that follows the write succeeds exactly when the
    written value is negative: a written [0] reads as [1]. *)
Lemma defeat_test (v : Z) (c : Char) :
  (hp (with_hp v c) <=? 0) = (v <? 0).
Proof.
  rewrite hp_with_hp.
  destruct (Z.eqb_spec v 0) as [-> | Hv]; [reflexivity |].
  destruct (Z.leb_spec v 0), (Z.ltb_spec v 0); try reflexivity; lia.
Qed.

Lemma at_defeat_unfold (roll_death : Char -> Char) (c : Char) :
  at_defeat roll_death c
  = if is_pc c then
      if allow_death (location c)
      then (tt, roll_death c, [EnterDefeat; RollDeath])
      else (tt, with_hp (hp_max c) c, [EnterDefeat; MsgContents YouYield])
    else
      (tt, c, EnterDefeat ::
              (if ndb_combat c then [CombatRemove] else []) ++ [MsgContents YouDie]).
Proof.
  unfold at_defeat, Character_at_defeat, BaseCharacter_at_defeat, at_death,
    BaseCharacter_at_death, Character_at_death, bind, read, modify, emit, when, ret.
  cbn. destruct (is_pc c) eqn:Epc; cbn.
  - destruct (allow_death (location c)); reflexivity.
  - rewrite Epc. destruct (ndb_combat c); reflexivity.
Qed.

Lemma at_defeat_counts_once (roll_death : Char -> Char) (c : Char) :
  count_events is_EnterDefeat (trace_of (at_defeat roll_death c)) = 1%nat.
Proof.
  rewrite at_defeat_unfold.
  destruct (is_pc c); [destruct (allow_death (location c)) | destruct (ndb_combat c)];
    reflexivity.
Qed.

(** ** Damage and defeat *)

(** Damage that leaves HP above 0: the value is written, nothing else happens. *)
Lemma at_damage_survive (roll_death : Char -> Char) (d : Z) (c : Char) :
  0 < hp c - d ->
  at_damage roll_death d c = (tt, with_hp (hp c - d) c, []).
Proof.
  intros H. rewrite at_damage_unfold, defeat_test.
  destruct (Z.ltb_spec (hp c - d) 0); [lia | reflexivity].
Qed.

(** Damage that leaves HP below 0: the value is written and [at_defeat] runs
    on the character that carries it. *)
Lemma at_damage_defeat (roll_death : Char -> Char) (d : Z) (c : Char) :
  hp c - d < 0 ->
  at_damage roll_death d c = at_defeat roll_death (with_hp (hp c - d) c).
Proof.
  intros H. rewrite at_damage_unfold, defeat_test.
  destruct (Z.ltb_spec (hp c - d) 0); [reflexivity | lia].
Qed.

(** Damage that leaves HP at exactly 0: the stored 0 reads as 1, the test
    [self.hp <= 0] fails and [at_defeat] does not run. *)
Lemma at_damage_exact_zero (roll_death : Char -> Char) (d : Z) (c : Char) :
  hp c - d = 0 ->
  at_damage roll_death d c = (tt, with_hp 0 c, []).
Proof.
  intros H. rewrite at_damage_unfold, defeat_test, H. reflexivity.
Qed.

(** A non-player character keeps the written HP whatever the outcome. *)
Lemma at_damage_npc_state (roll_death : Char -> Char) (d : Z) (c : Char) :
  is_pc c = false ->
  state_of (at_damage roll_death d c) = with_hp (hp c - d) c.
Proof.
  intros Hpc. rewrite at_damage_unfold.
  destruct (hp (with_hp (hp c - d) c) <=? 0); [| reflexivity].
  rewrite at_defeat_unfold. simpl is_pc. rewrite Hpc. reflexivity.
Qed.

(** C2, counterexample: a goblin at HP 10/10 that takes 15 damage ends at HP
    -5, not at the clamped value 0. *)
Lemma at_damage_not_clamped :
  let c' := state_of (at_damage roll_death_idle 15 (goblin 10 10)) in
  db_hp c' = Some (-5) /\ hp c' = -5 /\ hp c' <> Z.max 0 (hp (goblin 10 10) - 15).
Proof. vm_compute. repeat split; discriminate. Qed.

(** C2, amended: [at_damage] writes the old HP minus the damage and does not
    clamp it, so HP can become negative; a result below 0 signals defeat, once,
    on the character that carries the written HP, and a result above 0 signals
    nothing.  For a non-player character the written HP is also the final
    one. *)
Theorem at_damage_writes_difference (roll_death : Char -> Char) (d : Z) (c : Char) :
  (0 < hp c - d ->
     at_damage roll_death d c = (tt, with_hp (hp c - d) c, [])) /\
  (hp c - d < 0 ->
     at_damage roll_death d c = at_defeat roll_death (with_hp (hp c - d) c) /\
     count_events is_EnterDefeat (trace_of (at_damage roll_death d c)) = 1%nat) /\
  (is_pc c = false ->
     db_hp (state_of (at_damage roll_death d c)) = Some (hp c - d)).
Proof.
  split; [| split].
  - apply at_damage_survive.
  - intros H. rewrite (at_damage_defeat _ _ _ H).
    split; [reflexivity | apply at_defeat_counts_once].
  - intros Hpc. rewrite (at_damage_npc_state _ _ _ Hpc). reflexivity.
Qed.

Lemma at_damage_writes_difference_witness :
  at_damage roll_death_idle 3 (goblin 10 10)
    = (tt, with_hp 7 (goblin 10 10), [])
  /\ count_events is_EnterDefeat
       (trace_of (at_damage roll_death_idle 15 (goblin 10 10))) = 1%nat
  /\ db_hp (state_of (at_damage roll_death_idle 15 (goblin 10 10))) = Some (-5).
Proof.
  split; [| split].
  - apply (proj1 (at_damage_writes_difference roll_death_idle 3 (goblin 10 10))).
    vm_compute. reflexivity.
  - apply (proj1 (proj2 (at_damage_writes_difference roll_death_idle 15 (goblin 10 10)))).
    vm_compute. reflexivity.
  - apply (proj2 (proj2 (at_damage_writes_difference roll_death_idle 15 (goblin 10 10)))).
    reflexivity.
Defined.

(** *** Repeated damage *)

Lemma do_calls_cons (roll_death : Char -> Char) (k : call) (ks : list call) (c : Char) :
  do_calls roll_death (k :: ks) c
  = (tt, state_of (do_calls roll_death ks (state_of (do_call roll_death k c))),
     trace_of (do_call roll_death k c)
     ++ trace_of (do_calls roll_death ks (state_of (do_call roll_death k c)))).
Proof.
  simpl. unfold bind, state_of, trace_of.
  destruct (do_call roll_death k c) as [[[] c1] t1]. simpl.
  destruct (do_calls roll_death ks c1) as [[[] c2] t2]. reflexivity.
Qed.

(** A non-player character below 0 HP is defeated again by every further hit. *)
Lemma defeated_npc_defeated_again (roll_death : Char -> Char) (ds : list Z) :
  forall c : Char,
    is_pc c = false -> hp c < 0 -> Forall (fun d => 0 <= d) ds ->
    count_events is_EnterDefeat
      (trace_of (do_calls roll_death (map CallDamage ds) c)) = length ds.
Proof.
  induction ds as [| d ds IH]; intros c Hpc Hneg Hds; [reflexivity |].
  inversion Hds as [| d' ds' Hd Hds' E]; subst.
  change (map CallDamage (d :: ds)) with (CallDamage d :: map CallDamage ds).
  rewrite do_calls_cons. unfold trace_of at 1. cbn [snd].
  rewrite count_events_app. cbn [do_call].
  assert (Hlt : hp c - d < 0) by lia.
  rewrite (at_damage_defeat roll_death d c Hlt) at 1.
  rewrite at_defeat_counts_once.
  rewrite (at_damage_npc_state roll_death d c Hpc).
  rewrite IH; [reflexivity | exact Hpc | | assumption].
  rewrite hp_with_hp. destruct (Z.eqb_spec (hp c - d) 0); lia.
Qed.

(** C3, counterexample: a goblin at HP 5/5 hit for 10 and then for 1 is
    defeated by the first hit and, already at -5 HP, once more by the second:
    [at_defeat] runs twice. *)
Lemma at_defeat_runs_twice :
  let first := at_damage roll_death_idle 10 (goblin 5 5) in
  let second := at_damage roll_death_idle 1 (state_of first) in
  hp (state_of first) = -5
  /\ count_events is_EnterDefeat (trace_of first) = 1%nat
  /\ count_events is_EnterDefeat (trace_of second) = 1%nat
  /\ count_events is_EnterDefeat
       (trace_of (do_calls roll_death_idle [CallDamage 10; CallDamage 1] (goblin 5 5)))
     = 2%nat.
Proof. vm_compute. repeat split. Qed.

(** C3, amended: every [at_damage] call that leaves HP below 0 runs
    [at_defeat] exactly once, also when HP was below 0 before the call, and a
    call that leaves HP above 0 does not run it; nothing remembers an earlier
    defeat, so a non-player character whose HP is below 0 runs [at_defeat]
    once for each further non-negative hit. *)
Theorem at_defeat_once_per_lethal_call (roll_death : Char -> Char) :
  (forall (c : Char) (d : Z),
      hp c - d < 0 ->
      count_events is_EnterDefeat (trace_of (at_damage roll_death d c)) = 1%nat) /\
  (forall (c : Char) (d : Z),
      0 < hp c - d ->
      count_events is_EnterDefeat (trace_of (at_damage roll_death d c)) = 0%nat) /\
  (forall (c : Char) (ds : list Z),
      is_pc c = false -> hp c < 0 -> Forall (fun d => 0 <= d) ds ->
      count_events is_EnterDefeat
        (trace_of (do_calls roll_death (map CallDamage ds) c)) = length ds).
Proof.
  split; [| split].
  - intros c d H. rewrite (at_damage_defeat _ _ _ H). apply at_defeat_counts_once.
  - intros c d H. rewrite (at_damage_survive _ _ _ H). reflexivity.
  - intros c ds. apply defeated_npc_defeated_again.
Qed.

Lemma at_defeat_once_per_lethal_call_witness :
  count_events is_EnterDefeat
    (trace_of (at_damage roll_death_idle 10 (goblin 5 5))) = 1%nat
  /\ count_events is_EnterDefeat
       (trace_of (at_damage roll_death_idle 2 (goblin 5 5))) = 0%nat
  /\ count_events is_EnterDefeat
       (trace_of (do_calls roll_death_idle (map CallDamage [1; 0; 4]) (goblin (-5) 5)))
     = 3%nat.
Proof.
  split; [| split].
  - apply (proj1 (at_defeat_once_per_lethal_call roll_death_idle)).
    vm_compute. reflexivity.
  - apply (proj1 (proj2 (at_defeat_once_per_lethal_call roll_death_idle))).
    vm_compute. reflexivity.
  - apply (proj2 (proj2 (at_defeat_once_per_lethal_call roll_death_idle))
             (goblin (-5) 5) [1; 0; 4]).
    + reflexivity.
    + vm_compute. reflexivity.
    + repeat constructor; discriminate.
Defined.

(** ** The HP getter and a stored 0 *)

(** C9: a stored HP of 0 (or an unset one) reads as 1 through the getter, which
    never returns 0; when damage brings the stored HP to exactly 0 the stored
    value is 0, the getter shows 1 and [hurt_level] is computed from 1. *)
Theorem hp_getter_reads_zero_as_one (roll_death : Char -> Char) (c : Char) :
  (db_hp c = Some 0 -> hp c = 1) /\
  (db_hp c = None -> hp c = 1) /\
  hp c <> 0 /\
  (forall d : Z,
      hp c - d = 0 ->
      let c' := state_of (at_damage roll_death d c) in
      db_hp c' = Some 0 /\ hp c' = 1 /\
      hurt_level c' = hurt_level_of (percent_of 1 (hp_max c)) /\
      hurt_level_double c' = hurt_level_double_of (percent_double 1 (hp_max c))).
Proof.
  repeat split.
  - intros E. unfold hp. rewrite E. reflexivity.
  - intros E. unfold hp. rewrite E. reflexivity.
  - apply hp_nonzero.
  - rewrite (at_damage_exact_zero _ _ _ H). reflexivity.
  - rewrite (at_damage_exact_zero _ _ _ H). reflexivity.
  - rewrite (at_damage_exact_zero _ _ _ H). reflexivity.
  - rewrite (at_damage_exact_zero _ _ _ H). reflexivity.
Qed.

Lemma hp_getter_reads_zero_as_one_witness :
  hp (goblin 0 10) = 1
  /\ (let c' := state_of (at_damage roll_death_idle 10 (goblin 10 10)) in
      db_hp c' = Some 0 /\ hp c' = 1 /\
      hurt_level c' = hurt_level_of (percent_of 1 (hp_max (goblin 10 10))) /\
      hurt_level_double c'
      = hurt_level_double_of (percent_double 1 (hp_max (goblin 10 10)))).
Proof.
  split.
  - apply (proj1 (hp_getter_reads_zero_as_one roll_death_idle (goblin 0 10))).
    reflexivity.
  - apply (proj2 (proj2 (proj2
             (hp_getter_reads_zero_as_one roll_death_idle (goblin 10 10))))).
    reflexivity.
Defined.

(** ** Healing *)

Lemma heal_unfold (amount : Z) (who : healer) (c : Char) :
  heal amount who c
  = (tt, with_hp (hp c + Z.min (hp_max c - hp c) amount) c,
     [Msg (heal_message who (Z.min (hp_max c - hp c) amount))]).
Proof. reflexivity. Qed.



(** ** Defeat of a player character *)

(** C6: where death is forbidden, [at_defeat] of a player character sets HP to
    the maximum and does not call the death roll; where death is allowed it
    calls the death roll exactly once and writes nothing itself: the character
    is what the death roll made of it. *)
Theorem Character_at_defeat_yields_or_rolls (roll_death : Char -> Char) (c : Char) :
  is_pc c = true ->
  let r := at_defeat roll_death c in
  (allow_death (location c) = false ->
     state_of r = with_hp (hp_max c) c
     /\ hp (state_of r) = hp_max c
     /\ hp_max (state_of r) = hp_max c
     /\ count_events is_RollDeath (trace_of r) = 0%nat)
  /\ (allow_death (location c) = true ->
     state_of r = roll_death c
     /\ count_events is_RollDeath (trace_of r) = 1%nat).
Proof.
  intros Hpc r. subst r. rewrite at_defeat_unfold, Hpc.
  split; intros Hloc; rewrite Hloc.
  - repeat split. unfold state_of. cbn [fst snd]. rewrite hp_with_hp.
    destruct (Z.eqb_spec (hp_max c) 0) as [E | _]; [| reflexivity].
    exfalso. exact (hp_max_nonzero c E).
  - split; reflexivity.
Qed.

Lemma Character_at_defeat_yields_or_rolls_witness :
  (let r := at_defeat roll_death_idle (hero (-2) 10 sanctuary) in
   hp (state_of r) = 10 /\ count_events is_RollDeath (trace_of r) = 0%nat)
  /\ (let r := at_defeat roll_death_idle (hero (-2) 10 wilderness) in
      hp (state_of r) = -2 /\ count_events is_RollDeath (trace_of r) = 1%nat).
Proof.
  split.
  - destruct (Character_at_defeat_yields_or_rolls roll_death_idle
                (hero (-2) 10 sanctuary) eq_refl) as [Hy _].
    destruct (Hy eq_refl) as (_ & Hhp & _ & Hn). split; [exact Hhp | exact Hn].
  - destruct (Character_at_defeat_yields_or_rolls roll_death_idle
                (hero (-2) 10 wilderness) eq_refl) as [_ Hd].
    destruct (Hd eq_refl) as (Hst & Hn). split; [rewrite Hst; reflexivity | exact Hn].
Defined.

(** ** The pool bounds along a sequence of calls *)

Lemma at_recovery_unfold (c : Char) :
  at_recovery c
  = let c1 := with_stamina (stamina c + strength c) c in
    let c2 := if stamina c1 >? stamina_max c1
              then with_stamina (stamina_max c1) c1 else c1 in
    let c3 := with_mana (mana c2 + will c2) c2 in
    let c4 := if mana c3 >? mana_max c3
              then with_mana (mana_max c3) c3 else c3 in
    (tt, c4, []).
Proof.
  unfold at_recovery, bind, read, modify, when, ret.
  cbn -[stamina stamina_max strength mana mana_max will with_stamina with_mana Z.gtb].
  destruct (stamina (with_stamina (stamina c + strength c) c)
            >? stamina_max (with_stamina (stamina c + strength c) c));
    cbn -[stamina stamina_max strength mana mana_max will with_stamina with_mana Z.gtb].
  - match goal with
    | |- context [?a >? ?b] => destruct (a >? b)
    end; reflexivity.
  - match goal with
    | |- context [?a >? ?b] => destruct (a >? b)
    end; reflexivity.
Qed.

(** Splits on every test left in the goal, then arithmetic. *)
Ltac split_tests :=
  repeat match goal with
    | |- context [Z.eqb ?a ?b] => destruct (Z.eqb_spec a b)
    | |- context [Z.gtb ?a ?b] => destruct (Z.gtb_spec a b)
    | |- context [Z.leb ?a ?b] => destruct (Z.leb_spec a b)
    end.

Ltac pools :=
  unfold pools_capped, pools_ok, pool_ok, pool_capped, recovers in *;
  unfold hp, hp_max, stamina, stamina_max, mana, mana_max, strength, will in *;
  cbn in *.

Lemma pools_ok_capped (c : Char) : pools_ok c -> pools_capped c.
Proof. pools. lia. Qed.

Lemma heal_keeps_bounds (amount : Z) (who : healer) (c : Char) :
  pools_capped c /\ recovers c ->
  pools_capped (state_of (heal amount who c))
  /\ recovers (state_of (heal amount who c)).
Proof.
  rewrite heal_unfold. unfold state_of. cbn [fst snd].
  pools. intros H. split_tests; lia.
Qed.

(** The two tests of [at_recovery], one after the other. *)
Ltac recovery_cases c :=
  rewrite at_recovery_unfold; cbv zeta; unfold state_of; cbn [fst snd];
  destruct (stamina (with_stamina (stamina c + strength c) c)
            >? stamina_max (with_stamina (stamina c + strength c) c)) eqn:Estamina;
  unfold recovered, reads_back, hp, hp_max, stamina, stamina_max, strength,
    mana, mana_max, will in *;
  cbn -[Z.gtb Z.eqb] in *;
  try rewrite Estamina;
  match goal with
  | |- context [if ?a >? ?b then with_mana _ _ else _] => destruct (a >? b) eqn:Emana
  end;
  cbn -[Z.gtb Z.eqb] in *.

(** What each getter shows after [at_recovery]. *)
Lemma at_recovery_stamina (c : Char) :
  stamina (state_of (at_recovery c))
  = recovered (stamina c) (strength c) (stamina_max c).
Proof. recovery_cases c; reflexivity. Qed.

Lemma at_recovery_mana (c : Char) :
  mana (state_of (at_recovery c))
  = recovered (mana c) (will c) (mana_max c).
Proof. recovery_cases c; try rewrite Emana; reflexivity. Qed.

Lemma at_recovery_frame (c : Char) :
  let c' := state_of (at_recovery c) in
  hp c' = hp c /\ hp_max c' = hp_max c
  /\ stamina_max c' = stamina_max c /\ mana_max c' = mana_max c
  /\ strength c' = strength c /\ will c' = will c.
Proof. recovery_cases c; repeat split. Qed.

(** One pool, one recovery step. *)
Lemma recovered_in_bounds (current rate maximum : Z) :
  pool_ok current maximum -> 0 <= rate ->
  pool_ok (recovered current rate maximum) maximum.
Proof.
  unfold pool_ok, recovered, reads_back, or_default.
  intros H Hr. split_tests; lia.
Qed.

Lemma at_recovery_keeps_bounds (c : Char) :
  pools_capped c /\ recovers c ->
  pools_capped (state_of (at_recovery c)) /\ recovers (state_of (at_recovery c)).
Proof.
  intros [(Hhp & Hst & Hma) [Hstr Hwill]].
  destruct (at_recovery_frame c) as (E1 & E2 & E3 & E4 & E5 & E6).
  unfold pools_capped, recovers.
  rewrite at_recovery_stamina, at_recovery_mana, E1, E2, E3, E4, E5, E6.
  split; [split; [exact Hhp | split] | split; assumption];
    apply recovered_in_bounds; assumption.
Qed.

Section DeathRollKeepsBounds.

Variable roll_death : Char -> Char.

(** What is asked of the dice service: it leaves the bounds in place. *)
Hypothesis roll_death_keeps_bounds :
  forall c : Char,
    pools_capped c /\ recovers c ->
    pools_capped (roll_death c) /\ recovers (roll_death c).

Lemma at_defeat_keeps_bounds (c : Char) :
  pools_capped c /\ recovers c ->
  pools_capped (state_of (at_defeat roll_death c))
  /\ recovers (state_of (at_defeat roll_death c)).
Proof.
  intros H. rewrite at_defeat_unfold.
  destruct (is_pc c); [destruct (allow_death (location c)) |].
  - apply roll_death_keeps_bounds. exact H.
  - unfold state_of. cbn [fst snd]. revert H. pools. intros H.
    split_tests; lia.
  - exact H.
Qed.

Lemma at_damage_keeps_bounds (d : Z) (c : Char) :
  0 <= d ->
  pools_capped c /\ recovers c ->
  pools_capped (state_of (at_damage roll_death d c))
  /\ recovers (state_of (at_damage roll_death d c)).
Proof.
  intros Hd H. rewrite at_damage_unfold.
  assert (Hw : pools_capped (with_hp (hp c - d) c)
               /\ recovers (with_hp (hp c - d) c)).
  { revert H. pools. intros H. split_tests; lia. }
  destruct (hp (with_hp (hp c - d) c) <=? 0).
  - apply at_defeat_keeps_bounds. exact Hw.
  - exact Hw.
Qed.

Lemma do_calls_keep_bounds (ks : list call) :
  forall c : Char,
    Forall no_negative_damage ks ->
    pools_capped c /\ recovers c ->
    pools_capped (state_of (do_calls roll_death ks c))
    /\ recovers (state_of (do_calls roll_death ks c)).
Proof.
  induction ks as [| k ks IH]; intros c Hks H; [exact H |].
  inversion Hks as [| k' ks' Hk Hks' E]; subst.
  rewrite do_calls_cons. unfold state_of at 1 3. cbn [fst snd].
  apply IH; [assumption |].
  destruct k as [d | amount who |]; cbn [do_call].
  - apply (at_damage_keeps_bounds d c); assumption.
  - apply (heal_keeps_bounds amount who c); assumption.
  - apply (at_recovery_keeps_bounds c); assumption.
Qed.

End DeathRollKeepsBounds.

(** C1, counterexample: a goblin at HP 10/10, within all its bounds, takes 15
    damage; its HP is then -5 and the invariant [0 <= hp] is broken. *)
Lemma hp_invariant_broken_by_damage :
  pools_ok (goblin 10 10)
  /\ ~ pools_ok (state_of (do_calls roll_death_idle [CallDamage 15] (goblin 10 10))).
Proof.
  split.
  - cbv -[Z.le Z.lt]. lia.
  - cbv -[Z.le Z.lt]. lia.
Qed.

(** C1, amended: from a state in which the three pools satisfy
    [0 <= current <= maximum] and [maximum >= 1] and strength and will are not
    negative, after every finite sequence of [at_damage] calls with
    non-negative damage, [heal] calls and [at_recovery] calls, the bound
    [current <= maximum] and [maximum >= 1] hold for the three pools and
    [0 <= current] holds for stamina and mana, provided the death roll keeps
    these bounds.  HP has no lower bound: [at_damage] does not clamp. *)
Theorem pools_stay_capped (roll_death : Char -> Char) (ks : list call) (c : Char) :
  (forall c0 : Char,
      pools_capped c0 /\ recovers c0 ->
      pools_capped (roll_death c0) /\ recovers (roll_death c0)) ->
  pools_ok c ->
  recovers c ->
  Forall no_negative_damage ks ->
  pools_capped (state_of (do_calls roll_death ks c)).
Proof.
  intros Hroll Hok Hrec Hks.
  apply (do_calls_keep_bounds roll_death Hroll ks c Hks).
  split; [apply pools_ok_capped; exact Hok | exact Hrec].
Qed.

Lemma pools_stay_capped_witness :
  pools_capped
    (state_of (do_calls roll_death_idle
                 [CallDamage 15; CallHeal 3 HealerSelf; CallRecovery; CallDamage 0]
                 (hero 10 10 wilderness))).
Proof.
  apply pools_stay_capped.
  - intros c0 H. exact H.
  - cbv -[Z.le Z.lt]. lia.
  - cbv -[Z.le Z.lt]. lia.
  - repeat constructor; simpl; lia.
Defined.

(** *** What the amended premises rule out *)

(** Negative damage raises HP above its maximum. *)
Lemma negative_damage_exceeds_maximum :
  let c' := state_of (at_damage roll_death_idle (-5) (goblin 10 10)) in
  hp c' = 15 /\ hp_max c' = 10.
Proof. vm_compute. split; reflexivity. Qed.

(** A negative strength makes [at_recovery] drain stamina below 0. *)
Lemma negative_strength_drains_stamina :
  let c := mkChar false "wraith" (Some 1) (Some 1) (Some 1) (Some 1) (Some 1) (Some 1)
                  (Some (-3)) (Some 1) (Some 1) None false wilderness in
  pools_ok c /\ stamina (state_of (at_recovery c)) = -2.
Proof. split; [cbv -[Z.le Z.lt]; lia | reflexivity]. Qed.

(** [spend_stamina] and [spend_mana] subtract without any test. *)
Lemma spend_unchecked (amount : Z) (c : Char) :
  db_stamina (state_of (spend_stamina amount c)) = Some (stamina c - amount)
  /\ db_mana (state_of (spend_mana amount c)) = Some (mana c - amount).
Proof. split; reflexivity. Qed.

(** ** The status bands *)

Lemma Qltb_lt (a b : Q) : Qltb a b = true <-> (a < b)%Q.
Proof.
  unfold Qltb. rewrite negb_true_iff. split.
  - intros E. apply Qnot_le_lt. intros Hle.
    apply Qle_bool_iff in Hle. congruence.
  - intros Hlt. destruct (Qle_bool b a) eqn:E; [| reflexivity].
    apply Qle_bool_iff in E. exfalso. exact (Qlt_not_le _ _ Hlt E).
Qed.

Lemma Qleb_le (a b : Q) : Qleb a b = true <-> (a <= b)%Q.
Proof. apply Qle_bool_iff. Qed.

Lemma in_band_true (lo p hi : Q) :
  in_band lo p hi = true <-> (lo < p /\ p <= hi)%Q.
Proof. unfold in_band. rewrite andb_true_iff, Qltb_lt, Qleb_le. reflexivity. Qed.

Lemma in_band_false (lo p hi : Q) :
  in_band lo p hi = false <-> (p <= lo \/ hi < p)%Q.
Proof.
  split.
  - intros E. destruct (Qlt_le_dec lo p) as [H1 | H1]; [| left; exact H1].
    destruct (Qlt_le_dec hi p) as [H2 | H2]; [right; exact H2 |].
    assert (T : in_band lo p hi = true) by (apply in_band_true; split; assumption).
    congruence.
  - intros H. destruct (in_band lo p hi) eqn:E; [| reflexivity].
    apply in_band_true in E. destruct E as [E1 E2].
    destruct H as [H | H]; exfalso.
    + exact (Qlt_not_le _ _ E1 H).
    + exact (Qlt_not_le _ _ H E2).
Qed.

(** Turns the tests of [hurt_level_of] into inequalities. *)
Ltac band_facts :=
  repeat match goal with
    | H : in_band _ _ _ = true |- _ => apply in_band_true in H
    | H : in_band _ _ _ = false |- _ => apply in_band_false in H
    | H : Qeq_bool _ _ = true |- _ => apply Qeq_bool_iff in H
    | H : Qeq_bool _ _ = false |- _ => apply Qeq_bool_neq in H
    end.

(** Each label is returned on its band, and on nothing else. *)
Lemma hurt_level_of_bands (p : Q) :
  (hurt_level_of p = Some "|gPerfect|n" <-> 95 < p /\ p <= 100)%Q
  /\ (hurt_level_of p = Some "|gScraped|n" <-> 80 < p /\ p <= 95)%Q
  /\ (hurt_level_of p = Some "|GBruised|n" <-> 60 < p /\ p <= 80)%Q
  /\ (hurt_level_of p = Some "|yHurt|n" <-> 45 < p /\ p <= 60)%Q
  /\ (hurt_level_of p = Some "|yWounded|n" <-> 30 < p /\ p <= 45)%Q
  /\ (hurt_level_of p = Some "|rBadly wounded|n" <-> 15 < p /\ p <= 30)%Q
  /\ (hurt_level_of p = Some "|rBarely hanging on|n" <-> 1 < p /\ p <= 15)%Q
  /\ (hurt_level_of p = Some "|RCollapsed!|n" <-> p == 0)%Q.
Proof.
  unfold hurt_level_of.
  destruct (in_band 95 p 100) eqn:B1; [| destruct (in_band 80 p 95) eqn:B2;
    [| destruct (in_band 60 p 80) eqn:B3; [| destruct (in_band 45 p 60) eqn:B4;
    [| destruct (in_band 30 p 45) eqn:B5; [| destruct (in_band 15 p 30) eqn:B6;
    [| destruct (in_band 1 p 15) eqn:B7; [| destruct (Qeq_bool p 0) eqn:B8]]]]]]];
    band_facts;
    repeat split; intros; try discriminate; try lra.
Qed.

(** The chain returns one of the eight labels or nothing. *)
Lemma hurt_level_of_label (p : Q) :
  hurt_level_of p = None \/ In (hurt_level_of p) (map Some hurt_labels).
Proof.
  unfold hurt_level_of.
  repeat match goal with
    | |- context [if ?b then _ else _] => destruct b
    end;
    first [ left; reflexivity | right; cbn; tauto ].
Qed.


(** The values at the boundaries named by the description: ratio 0.80 is
    "Bruised", ratio 0 is "Collapsed!", ratio 1 is "Perfect"; the other upper
    ends belong to their own band too. *)
Lemma hurt_level_boundaries :
  hurt_level_of_ratio (80 # 100) = Some "|GBruised|n"
  /\ hurt_level_of_ratio 0 = Some "|RCollapsed!|n"
  /\ hurt_level_of_ratio 1 = Some "|gPerfect|n"
  /\ hurt_level_of_ratio (95 # 100) = Some "|gScraped|n"
  /\ hurt_level_of_ratio (60 # 100) = Some "|yHurt|n"
  /\ hurt_level_of_ratio (15 # 100) = Some "|rBarely hanging on|n"
  /\ hurt_level (goblin 8 10) = Some "|GBruised|n"
  /\ hurt_level (goblin 10 10) = Some "|gPerfect|n"
  /\ hurt_level (goblin (-3) 10) = Some "|RCollapsed!|n".
Proof. vm_compute. repeat split. Qed.

(** On these characters the doubles give what the rationals give. *)
Lemma hurt_level_double_agrees :
  Forall (fun c => hurt_level_double c = hurt_level c)
    [ goblin 1 200; goblin 1 100; goblin 8 10; goblin 4 5; goblin 19 20;
      goblin 3 5; goblin 9 20; goblin 3 10; goblin 3 20; goblin 10 10;
      goblin 0 10; goblin (-3) 10; goblin 25 10 ].
Proof. repeat constructor. Qed.

(** C4: the chain of [hurt_level] has no branch for [0 < percent <= 1]: an HP
    ratio of 1/200, inside [0, 1], gets no label at all (Python's [None]), and
    so does the ratio 1/100. *)
Theorem hurt_level_gap :
  hurt_level (goblin 1 200) = None
  /\ hurt_level_of_ratio (1 # 200) = None
  /\ hurt_level (goblin 1 100) = None
  /\ hurt_level_double (goblin 1 200) = None
  /\ hurt_level_double (goblin 1 100) = None
  /\ ~ In (hurt_level (goblin 1 200)) (map Some hurt_labels).
Proof.
  vm_compute. repeat split. intros H.
  repeat (destruct H as [H | H]; [discriminate H |]). exact H.
Qed.

(** ** Looting *)

Lemma at_pay_unfold (amount : Z) (c : Char) :
  at_pay amount c
  = (Z.min amount (coins c),
     with_coins (coins c - Z.min amount (coins c)) c, []).
Proof. reflexivity. Qed.

(** [at_pay] hands out no more than the purse holds and never leaves a
    non-negative purse below 0. *)
Lemma at_pay_within_purse (amount : Z) (c : Char) :
  0 <= coins c ->
  fst (fst (at_pay amount c)) <= coins c
  /\ 0 <= coins (state_of (at_pay amount c)).
Proof.
  intros H. rewrite at_pay_unfold. unfold state_of. cbn [fst snd].
  rewrite coins_with_coins. lia.
Qed.

(** Looting between two different objects. *)
Lemma BaseCharacter_at_looted_distinct
    (w : gmap nat Char) (victim looter : nat) (v l : Char) (r : Z) :
  victim <> looter ->
  w !! victim = Some v ->
  w !! looter = Some l ->
  BaseCharacter_at_looted victim looter r w
  = Some (<[looter := with_coins (coins l + Z.min r (coins v)) l]>
            (<[victim := with_coins (coins v - Z.min r (coins v)) v]> w),
          [MsgContents (LootsYouFor (Z.min r (coins v)))]).
Proof.
  intros Hne Hv Hl. unfold BaseCharacter_at_looted, on_object.
  rewrite Hv, at_pay_unfold.
  rewrite lookup_insert_ne by exact Hne. rewrite Hl.
  reflexivity.
Qed.

(** An object that loots itself pays itself: the purse is unchanged. *)
Lemma BaseCharacter_at_looted_self
    (w : gmap nat Char) (victim : nat) (v : Char) (r : Z) :
  w !! victim = Some v ->
  exists w' : gmap nat Char,
    BaseCharacter_at_looted victim victim r w
    = Some (w', [MsgContents (LootsYouFor (Z.min r (coins v)))])
    /\ coins_of w' victim = Some (coins v).
Proof.
  intros Hv. unfold BaseCharacter_at_looted, on_object.
  rewrite Hv, at_pay_unfold. rewrite lookup_insert_eq.
  eexists. split; [reflexivity |].
  unfold coins_of. rewrite lookup_insert_eq. cbn [fmap option_fmap option_map].
  unfold add_coins, bind, read, modify. cbn [fst snd].
  rewrite !coins_with_coins. f_equal. lia.
Qed.



(** C10: [at_looted] on a player character does nothing: the store, and so
    every field of victim and looter, is as before and nothing is sent; the
    method of [BaseCharacter] on the same store does send a message and, for
    two different objects, moves the coins. *)
Theorem Character_at_looted_changes_nothing
    (w : gmap nat Char) (victim looter : nat) (v : Char) (r : Z) :
  w !! victim = Some v ->
  is_pc v = true ->
  at_looted victim looter r w = Some (w, [])
  /\ at_do_loot looter victim r w = Some (w, [])
  /\ (forall l : Char,
         victim <> looter -> w !! looter = Some l ->
         exists w' : gmap nat Char,
           BaseCharacter_at_looted victim looter r w
           = Some (w', [MsgContents (LootsYouFor (Z.min r (coins v)))])
           /\ coins_of w' victim = Some (coins v - Z.min r (coins v))
           /\ coins_of w' looter = Some (coins l + Z.min r (coins v))).
Proof.
  intros Hv Hpc. split; [| split].
  - unfold at_looted. rewrite Hv, Hpc. reflexivity.
  - unfold at_do_loot, at_looted. rewrite Hv, Hpc. reflexivity.
  - intros l Hne Hl. eexists. split; [| split].
    + apply (BaseCharacter_at_looted_distinct w victim looter v l r Hne Hv Hl).
    + unfold coins_of.
      rewrite lookup_insert_ne by (intros E; apply Hne; symmetry; exact E).
      rewrite lookup_insert_eq. cbn [fmap option_fmap option_map]. rewrite coins_with_coins. reflexivity.
    + unfold coins_of. rewrite lookup_insert_eq. cbn [fmap option_fmap option_map]. rewrite coins_with_coins.
      reflexivity.
Qed.

Lemma Character_at_looted_changes_nothing_witness :
  let w : gmap nat Char :=
    <[1%nat := with_coins 3 (hero (-1) 10 wilderness)]>
      (<[2%nat := with_coins 4 (goblin 5 5)]> ∅) in
  at_looted 1 2 10 w = Some (w, []).
Proof.
  intros w.
  apply (proj1 (Character_at_looted_changes_nothing w 1%nat 2%nat
                  (with_coins 3 (hero (-1) 10 wilderness)) 10 eq_refl eq_refl)).
Defined.

(** ** Consumables *)

Lemma uses_with_uses (v : Z) (i : Item) :
  uses (with_uses v i) = if v =? 0 then 1 else v.
Proof. reflexivity. Qed.

(** The test [self.uses <= 0] after the write succeeds exactly when the written
    counter is negative: a written [0] reads as [1]. *)
Lemma used_up_test (v : Z) (i : Item) :
  (uses (with_uses v i) <=? 0) = (v <? 0).
Proof.
  rewrite uses_with_uses.
  destruct (Z.eqb_spec v 0) as [-> | Hv]; [reflexivity |].
  destruct (Z.leb_spec v 0), (Z.ltb_spec v 0); try reflexivity; lia.
Qed.

Lemma ConsumableObject_at_post_use_unfold (i : Item) :
  ConsumableObject_at_post_use i
  = if uses i - 1 <? 0
    then (delete (with_uses (uses i - 1) i), [UsedUp (item_key i)])
    else (with_uses (uses i - 1) i, []).
Proof.
  unfold ConsumableObject_at_post_use. rewrite used_up_test. reflexivity.
Qed.

Lemma at_post_use_counter (i : Item) :
  db_uses (fst (at_post_use i)) = Some (uses i - 1).
Proof.
  unfold at_post_use. destruct (item_class_of i).
  - rewrite ConsumableObject_at_post_use_unfold.
    destruct (uses i - 1 <? 0); reflexivity.
  - reflexivity.
Qed.

(** The last use of a plain consumable: the counter goes from 1 to 0,
    [self.uses] reads the 0 as 1, the test [self.uses <= 0] fails and the item
    is neither reported as used up nor deleted. *)
Lemma consumable_last_use_not_deleted :
  at_post_use (new_item ConsumableObject "potion")
  = (mkItem ConsumableObject "potion" (Some 0) false, []).
Proof. reflexivity. Qed.

(** A plain consumable whose counter reads at least 1 survives its use. *)
Lemma consumable_survives_use (i : Item) :
  item_class_of i = ConsumableObject ->
  1 <= uses i ->
  deleted (fst (at_post_use i)) = deleted i
  /\ 1 <= uses (fst (at_post_use i)).
Proof.
  intros Hcls Huses. unfold at_post_use. rewrite Hcls.
  rewrite ConsumableObject_at_post_use_unfold.
  destruct (Z.ltb_spec (uses i - 1) 0); [lia |].
  cbn [fst]. split; [reflexivity |].
  rewrite uses_with_uses. destruct (Z.eqb_spec (uses i - 1) 0); lia.
Qed.

(** So no number of uses deletes it. *)
Lemma consumable_never_used_up (n : nat) :
  forall i : Item,
    item_class_of i = ConsumableObject ->
    1 <= uses i ->
    deleted (use_times n i) = deleted i.
Proof.
  induction n as [| n IH]; intros i Hcls Huses; [reflexivity |].
  cbn [use_times].
  destruct (consumable_survives_use i Hcls Huses) as [Hdel Hu].
  rewrite IH; [exact Hdel | | exact Hu].
  unfold at_post_use. rewrite Hcls, ConsumableObject_at_post_use_unfold.
  destruct (uses i - 1 <? 0); exact Hcls.
Qed.

(** A plain consumable is deleted by a use exactly when its counter read 0 or
    less before it. *)
Lemma consumable_deleted_iff (i : Item) :
  item_class_of i = ConsumableObject ->
  deleted i = false ->
  (deleted (fst (at_post_use i)) = true <-> uses i <= 0).
Proof.
  intros Hcls Hdel. unfold at_post_use. rewrite Hcls.
  rewrite ConsumableObject_at_post_use_unfold.
  destruct (Z.ltb_spec (uses i - 1) 0); cbn [fst delete deleted with_uses].
  - split; [lia | reflexivity].
  - rewrite Hdel. split; [discriminate | lia].
Qed.

(** C8, counterexample: a runestone with one use left is used; its counter
    reaches 0 and it is not deleted. *)
Lemma runestone_at_zero_not_deleted :
  let i' := fst (at_post_use (new_item Runestone "rune of fire")) in
  db_uses i' = Some 0 /\ deleted i' = false.
Proof. split; reflexivity. Qed.

(** C8, amended: each use writes a counter that is exactly one less than the
    counter read before the use; an item whose counter is above 0 after the
    decrement is not removed and nothing is reported; a runestone is never
    removed by a use, whatever its counter, and [refresh] gives it one use
    again. *)
Theorem at_post_use_decrements (i : Item) :
  let i' := fst (at_post_use i) in
  db_uses i' = Some (uses i - 1)
  /\ (0 < uses i - 1 ->
      deleted i' = deleted i /\ uses i' = uses i - 1 /\ snd (at_post_use i) = [])
  /\ (item_class_of i = Runestone ->
      deleted i' = deleted i /\ snd (at_post_use i) = []
      /\ uses (refresh i') = 1).
Proof.
  cbv zeta. split; [apply at_post_use_counter | split].
  - intros Hpos. unfold at_post_use. destruct (item_class_of i).
    + rewrite ConsumableObject_at_post_use_unfold.
      destruct (Z.ltb_spec (uses i - 1) 0); [lia |].
      cbn [fst snd]. rewrite uses_with_uses.
      destruct (Z.eqb_spec (uses i - 1) 0); [lia |]. repeat split.
    + unfold Runestone_at_post_use. cbn [fst snd]. rewrite uses_with_uses.
      destruct (Z.eqb_spec (uses i - 1) 0); [lia |]. repeat split.
  - intros Hcls. unfold at_post_use. rewrite Hcls. repeat split.
Qed.

Lemma at_post_use_decrements_witness :
  (let i := mkItem ConsumableObject "rations" (Some 3) false in
   deleted (fst (at_post_use i)) = false /\ uses (fst (at_post_use i)) = 2)
  /\ (let i := new_item Runestone "rune of fire" in
      deleted (fst (at_post_use i)) = false).
Proof.
  split.
  - destruct (proj1 (proj2 (at_post_use_decrements
                              (mkItem ConsumableObject "rations" (Some 3) false))))
      as (Hdel & Huses & _).
    + vm_compute. reflexivity.
    + split; [exact Hdel | exact Huses].
  - destruct (proj2 (proj2 (at_post_use_decrements (new_item Runestone "rune of fire")))
                eq_refl) as (Hdel & _).
    exact Hdel.
Defined.

(** * Further properties of the same code *)

(** ** Recovery ticks *)

Lemma stamina_nonzero (c : Char) : stamina c <> 0.
Proof. apply or_default_nonzero. discriminate. Qed.

Lemma stamina_max_nonzero (c : Char) : stamina_max c <> 0.
Proof. apply or_default_nonzero. discriminate. Qed.

Lemma mana_nonzero (c : Char) : mana c <> 0.
Proof. apply or_default_nonzero. discriminate. Qed.

Lemma mana_max_nonzero (c : Char) : mana_max c <> 0.
Proof. apply or_default_nonzero. discriminate. Qed.

Lemma at_recovery_trace (c : Char) : trace_of (at_recovery c) = [].
Proof. rewrite at_recovery_unfold. reflexivity. Qed.

Lemma at_recovery_identity (c : Char) :
  is_pc (state_of (at_recovery c)) = is_pc c
  /\ location (state_of (at_recovery c)) = location c
  /\ db_hp (state_of (at_recovery c)) = db_hp c
  /\ db_coins (state_of (at_recovery c)) = db_coins c.
Proof. recovery_cases c; repeat split. Qed.

(** A pool that is cut back is cut back to a maximum that reads as written. *)
Lemma recovered_capped (current rate maximum : Z) :
  maximum <> 0 -> recovered current rate maximum <= maximum.
Proof.
  intros Hm. unfold recovered, reads_back, or_default.
  split_tests; lia.
Qed.

Lemma recovered_min (current rate maximum : Z) :
  1 <= current <= maximum -> 0 <= rate ->
  recovered current rate maximum = Z.min (current + rate) maximum.
Proof.
  intros Hc Hr. unfold recovered, reads_back, or_default.
  split_tests; lia.
Qed.

(** X1: after a recovery tick neither stamina nor mana reads above its
    maximum, whatever the character was before the tick (a pool above its
    maximum, a negative rate); the tick sends nothing and leaves HP, the
    maxima and the rates alone. *)
Theorem at_recovery_caps_pools (c : Char) :
  let c' := state_of (at_recovery c) in
  stamina c' <= stamina_max c'
  /\ mana c' <= mana_max c'
  /\ trace_of (at_recovery c) = []
  /\ hp c' = hp c /\ hp_max c' = hp_max c
  /\ stamina_max c' = stamina_max c /\ mana_max c' = mana_max c
  /\ strength c' = strength c /\ will c' = will c.
Proof.
  cbv zeta.
  destruct (at_recovery_frame c) as (E1 & E2 & E3 & E4 & E5 & E6).
  rewrite at_recovery_stamina, at_recovery_mana, E3, E4.
  split; [apply recovered_capped, stamina_max_nonzero |].
  split; [apply recovered_capped, mana_max_nonzero |].
  split; [apply at_recovery_trace |].
  repeat split; assumption.
Qed.

(** The two pools after [n] ticks. *)
Lemma recover_times_pools (n : nat) :
  forall c : Char,
    1 <= stamina c <= stamina_max c ->
    1 <= mana c <= mana_max c ->
    0 <= strength c -> 0 <= will c ->
    stamina (recover_times n c)
    = Z.min (stamina c + Z.of_nat n * strength c) (stamina_max c)
    /\ mana (recover_times n c)
       = Z.min (mana c + Z.of_nat n * will c) (mana_max c)
    /\ hp (recover_times n c) = hp c.
Proof.
  induction n as [| n IH]; intros c Hs Hm Hstr Hwill.
  - cbn [recover_times]. change (Z.of_nat 0) with 0. repeat split; lia.
  - cbn [recover_times].
    destruct (at_recovery_frame c) as (E1 & E2 & E3 & E4 & E5 & E6).
    pose proof (at_recovery_stamina c) as Es.
    pose proof (at_recovery_mana c) as Em.
    rewrite (recovered_min _ _ _ Hs Hstr) in Es.
    rewrite (recovered_min _ _ _ Hm Hwill) in Em.
    destruct (IH (state_of (at_recovery c))) as (Is & Im & Ih).
    + rewrite Es, E3. lia.
    + rewrite Em, E4. lia.
    + rewrite E5. exact Hstr.
    + rewrite E6. exact Hwill.
    + rewrite Is, Im, Ih, Es, Em, E1, E3, E4, E5, E6.
      rewrite Nat2Z.inj_succ, !Z.mul_succ_l.
      repeat split; lia.
Qed.

(** X2: for pools within their bounds and rates that are not negative, [n]
    recovery ticks bring stamina to [min(stamina + n * strength, stamina_max)]
    and mana to [min(mana + n * will, mana_max)], and leave HP as it was. *)
Theorem recover_times_closed_form (n : nat) (c : Char) :
  pool_ok (stamina c) (stamina_max c) ->
  pool_ok (mana c) (mana_max c) ->
  recovers c ->
  stamina (recover_times n c)
  = Z.min (stamina c + Z.of_nat n * strength c) (stamina_max c)
  /\ mana (recover_times n c)
     = Z.min (mana c + Z.of_nat n * will c) (mana_max c)
  /\ hp (recover_times n c) = hp c.
Proof.
  intros [Hs _] [Hm _] [Hstr Hwill].
  pose proof (stamina_nonzero c). pose proof (mana_nonzero c).
  apply recover_times_pools; lia.
Qed.

Lemma recover_times_closed_form_witness :
  let c := with_stamina 1 (with_mana 2 (new_Character "hero" sanctuary)) in
  stamina (recover_times 2 c) = 3
  /\ stamina (recover_times 7 c) = 4
  /\ mana (recover_times 7 c) = 9.
Proof.
  intros c.
  assert (Hs : pool_ok (stamina c) (stamina_max c)) by (cbv -[Z.le Z.lt]; lia).
  assert (Hm : pool_ok (mana c) (mana_max c)) by (cbv -[Z.le Z.lt]; lia).
  assert (Hr : recovers c) by (cbv -[Z.le Z.lt]; lia).
  destruct (recover_times_closed_form 2 c Hs Hm Hr) as (E2 & _ & _).
  destruct (recover_times_closed_form 7 c Hs Hm Hr) as (E7 & M7 & _).
  split; [exact E2 | split; [exact E7 | exact M7]].
Defined.

(** ** Healing, once more *)

(** X3: whatever the character and the amount, [heal] writes
    [min(hp_max, hp + amount)]: a character above its maximum is brought down
    to it, with a negative number in the message, and a negative amount takes
    HP away. *)
Theorem heal_writes_minimum (amount : Z) (who : healer) (c : Char) :
  db_hp (state_of (heal amount who c)) = Some (Z.min (hp_max c) (hp c + amount))
  /\ (hp_max c < hp c -> 0 <= amount ->
      hp (state_of (heal amount who c)) = hp_max c
      /\ trace_of (heal amount who c) = [Msg (heal_message who (hp_max c - hp c))]
      /\ hp_max c - hp c < 0)
  /\ (amount < 0 -> hp c <= hp_max c ->
      db_hp (state_of (heal amount who c)) = Some (hp c + amount)).
Proof.
  rewrite heal_unfold. unfold state_of, trace_of. cbn [fst snd].
  split; [| split].
  - cbn. f_equal. lia.
  - intros Hover Ha.
    replace (Z.min (hp_max c - hp c) amount) with (hp_max c - hp c) by lia.
    replace (hp c + (hp_max c - hp c)) with (hp_max c) by lia.
    rewrite hp_with_hp. pose proof (hp_max_nonzero c).
    destruct (Z.eqb_spec (hp_max c) 0); [contradiction |].
    repeat split. lia.
  - intros Ha Hle. cbn. f_equal. lia.
Qed.

Lemma heal_writes_minimum_witness :
  hp (state_of (heal 5 NoHealer (goblin 14 10))) = 10
  /\ trace_of (heal 5 NoHealer (goblin 14 10)) = [Msg (YouAreHealed (-4))]
  /\ db_hp (state_of (heal (-3) NoHealer (goblin 7 10))) = Some 4.
Proof.
  destruct (heal_writes_minimum 5 NoHealer (goblin 14 10)) as (_ & Hover & _).
  destruct (heal_writes_minimum (-3) NoHealer (goblin 7 10)) as (_ & _ & Hneg).
  destruct Hover as (H1 & H2 & _); [vm_compute; reflexivity | lia |].
  split; [exact H1 | split; [exact H2 |]].
  apply Hneg; [lia | vm_compute; discriminate].
Defined.

(** X4: two heals with non-negative amounts leave the character as one heal
    with the sum of the amounts does (for positive HP, not above the
    maximum). *)
Theorem heal_twice_is_heal_of_sum (a b : Z) (who1 who2 who3 : healer) (c : Char) :
  0 < hp c -> hp c <= hp_max c -> 0 <= a -> 0 <= b ->
  state_of (heal b who2 (state_of (heal a who1 c)))
  = state_of (heal (a + b) who3 c).
Proof.
  intros Hpos Hle Ha Hb. rewrite !heal_unfold. unfold state_of. cbn [fst snd].
  rewrite hp_with_hp.
  destruct (Z.eqb_spec (hp c + Z.min (hp_max c - hp c) a) 0) as [E | _]; [lia |].
  change (hp_max (with_hp (hp c + Z.min (hp_max c - hp c) a) c)) with (hp_max c).
  unfold with_hp. cbn. f_equal. f_equal. lia.
Qed.

Lemma heal_twice_is_heal_of_sum_witness :
  state_of (heal 4 NoHealer (state_of (heal 2 HealerSelf (hero 3 10 sanctuary))))
  = state_of (heal 6 NoHealer (hero 3 10 sanctuary)).
Proof.
  apply heal_twice_is_heal_of_sum.
  - vm_compute. reflexivity.
  - vm_compute. discriminate.
  - lia.
  - lia.
Defined.

(** ** Damage, once more *)

(** A getter that shows neither 0 nor the default shows what is stored. *)
Lemma or_default_stored (v : attr) (d z : Z) :
  or_default v d = z -> z <> d -> v = Some z.
Proof.
  destruct v as [s |]; simpl.
  - destruct (Z.eqb_spec s 0); intros E Hne; [congruence | rewrite E; reflexivity].
  - intros E Hne. congruence.
Qed.

(** Writing what is stored changes nothing. *)
Lemma with_hp_stored (z : Z) (c : Char) : db_hp c = Some z -> with_hp z c = c.
Proof. destruct c. cbn. intros ->. reflexivity. Qed.

(** X5: damage that is survived and a heal of the same amount cancel: the
    character is exactly as before and [at_defeat] did not run. *)
Theorem heal_undoes_survived_damage
    (roll_death : Char -> Char) (d : Z) (who : healer) (c : Char) :
  0 < d -> d < hp c -> hp c <= hp_max c ->
  state_of (heal d who (state_of (at_damage roll_death d c))) = c
  /\ trace_of (at_damage roll_death d c) = [].
Proof.
  intros Hd Hlt Hle.
  rewrite (at_damage_survive roll_death d c) by lia.
  unfold state_of, trace_of. cbn [fst snd]. split; [| reflexivity].
  rewrite heal_unfold. cbn [fst snd]. rewrite hp_with_hp.
  destruct (Z.eqb_spec (hp c - d) 0) as [E | _]; [lia |].
  change (hp_max (with_hp (hp c - d) c)) with (hp_max c).
  replace (hp c - d + Z.min (hp_max c - (hp c - d)) d) with (hp c) by lia.
  change (with_hp (hp c) (with_hp (hp c - d) c)) with (with_hp (hp c) c).
  apply with_hp_stored.
  apply (or_default_stored (db_hp c) 1 (hp c)); [reflexivity | lia].
Qed.

Lemma heal_undoes_survived_damage_witness :
  state_of (heal 4 NoHealer (state_of (at_damage roll_death_idle 4 (goblin 9 10))))
  = goblin 9 10.
Proof.
  apply (proj1 (heal_undoes_survived_damage roll_death_idle 4 NoHealer (goblin 9 10)
                  ltac:(lia) ltac:(vm_compute; reflexivity)
                  ltac:(vm_compute; discriminate))).
Defined.

(** X6: a character whose HP reads 1 is not defeated by a hit of 1: the 0 that
    is written reads as 1 again, so any number of such hits leaves it at a
    readable HP of 1 and [at_defeat] never runs. *)
Theorem one_hp_survives_unit_hits (roll_death : Char -> Char) (n : nat) (c : Char) :
  hp c = 1 ->
  let r := do_calls roll_death (repeat (CallDamage 1) n) c in
  trace_of r = []
  /\ hp (state_of r) = 1
  /\ (n <> 0%nat -> state_of r = with_hp 0 c).
Proof.
  revert c. induction n as [| n IH]; intros c Hc.
  - cbn. repeat split; [exact Hc | intros H; contradiction H; reflexivity].
  - cbv zeta. cbn [repeat]. rewrite do_calls_cons. cbn [do_call].
    rewrite (at_damage_exact_zero roll_death 1 c) by lia.
    destruct (IH (with_hp 0 c) eq_refl) as (Ht & Hh & Hs).
    unfold state_of, trace_of in *. cbn [fst snd app] in *.
    split; [exact Ht | split; [exact Hh |]].
    intros _. destruct n as [| n']; [reflexivity |].
    exact (Hs ltac:(discriminate)).
Qed.

Lemma one_hp_survives_unit_hits_witness :
  let r := do_calls roll_death_idle (repeat (CallDamage 1) 5) (goblin 1 10) in
  trace_of r = [] /\ hp (state_of r) = 1.
Proof.
  destruct (one_hp_survives_unit_hits roll_death_idle 5 (goblin 1 10) eq_refl)
    as (Ht & Hh & _).
  split; [exact Ht | exact Hh].
Defined.

(** X7: unless the death roll is called (a player character where death is
    allowed), [at_damage] changes nothing but the stored HP: class, key,
    maxima, stamina, mana, rates, coins, combat and room are as before. *)
Theorem at_damage_touches_only_hp (roll_death : Char -> Char) (d : Z) (c : Char) :
  is_pc c = false \/ allow_death (location c) = false ->
  exists v : Z, state_of (at_damage roll_death d c) = with_hp v c.
Proof.
  intros Hsafe. rewrite at_damage_unfold.
  destruct (hp (with_hp (hp c - d) c) <=? 0).
  - rewrite at_defeat_unfold.
    change (is_pc (with_hp (hp c - d) c)) with (is_pc c).
    change (location (with_hp (hp c - d) c)) with (location c).
    destruct (is_pc c) eqn:Epc.
    + destruct Hsafe as [H | H]; [discriminate H |]. rewrite H.
      exists (hp_max (with_hp (hp c - d) c)). reflexivity.
    + exists (hp c - d). reflexivity.
  - exists (hp c - d). reflexivity.
Qed.

Lemma at_damage_touches_only_hp_witness :
  exists v : Z,
    state_of (at_damage roll_death_idle 15 (hero 10 10 sanctuary))
    = with_hp v (hero 10 10 sanctuary).
Proof.
  apply at_damage_touches_only_hp. right. reflexivity.
Defined.

(** *** A player character where death is forbidden *)

Lemma safe_at_with_hp (m v : Z) (c : Char) :
  safe_at m c ->
  1 <= (if v =? 0 then 1 else v) <= m ->
  safe_at m (with_hp v c).
Proof.
  intros (Hpc & Hloc & Hmax & Hhp) Hv. unfold safe_at.
  rewrite hp_with_hp. repeat split; try assumption; apply Hv.
Qed.

Lemma safe_at_call (roll_death : Char -> Char) (m : Z) (k : call) (c : Char) :
  no_negative_amount k ->
  safe_at m c ->
  safe_at m (state_of (do_call roll_death k c))
  /\ count_events is_RollDeath (trace_of (do_call roll_death k c)) = 0%nat.
Proof.
  intros Hk Hsafe. pose proof Hsafe as (Hpc & Hloc & Hmax & Hhp).
  destruct k as [d | a who |]; cbn [do_call no_negative_amount] in *.
  - rewrite at_damage_unfold, defeat_test.
    destruct (Z.ltb_spec (hp c - d) 0) as [Hlt | Hge].
    + rewrite at_defeat_unfold.
      change (is_pc (with_hp (hp c - d) c)) with (is_pc c).
      change (location (with_hp (hp c - d) c)) with (location c).
      change (hp_max (with_hp (hp c - d) c)) with (hp_max c).
      rewrite Hpc, Hloc. unfold state_of, trace_of. cbn [fst snd].
      split; [| reflexivity].
      change (with_hp (hp_max c) (with_hp (hp c - d) c)) with (with_hp (hp_max c) c).
      apply safe_at_with_hp; [exact Hsafe |].
      destruct (Z.eqb_spec (hp_max c) 0); lia.
    + unfold state_of, trace_of. cbn [fst snd]. split; [| reflexivity].
      apply safe_at_with_hp; [exact Hsafe |].
      destruct (Z.eqb_spec (hp c - d) 0); lia.
  - rewrite heal_unfold. unfold state_of, trace_of. cbn [fst snd].
    split; [| reflexivity].
    apply safe_at_with_hp; [exact Hsafe |].
    destruct (Z.eqb_spec (hp c + Z.min (hp_max c - hp c) a) 0); lia.
  - rewrite at_recovery_trace. split; [| reflexivity].
    destruct (at_recovery_frame c) as (E1 & E2 & _).
    destruct (at_recovery_identity c) as (I1 & I2 & _).
    unfold safe_at. rewrite I1, I2, E1, E2. exact Hsafe.
Qed.

Lemma safe_at_calls (roll_death : Char -> Char) (m : Z) (ks : list call) :
  forall c : Char,
    Forall no_negative_amount ks ->
    safe_at m c ->
    safe_at m (state_of (do_calls roll_death ks c))
    /\ count_events is_RollDeath (trace_of (do_calls roll_death ks c)) = 0%nat.
Proof.
  induction ks as [| k ks IH]; intros c Hks Hsafe.
  - split; [exact Hsafe | reflexivity].
  - inversion Hks as [| k' ks' Hk Hks' E]; subst.
    rewrite do_calls_cons.
    destruct (safe_at_call roll_death m k c Hk Hsafe) as [Hs1 Hn1].
    destruct (IH _ Hks' Hs1) as [Hs2 Hn2].
    unfold state_of, trace_of in *. cbn [fst snd] in *.
    split; [exact Hs2 |].
    rewrite count_events_app, Hn1, Hn2. reflexivity.
Qed.

(** X8: a player character in a room that forbids death, whose HP reads
    between 1 and its maximum, keeps it there along every sequence of
    [at_damage], [heal] and [at_recovery] calls without negative amounts: a
    lethal hit puts HP back to the maximum, the maximum does not change and the
    death roll is never called. *)
Theorem safe_room_keeps_hp_in_range
    (roll_death : Char -> Char) (ks : list call) (c : Char) :
  is_pc c = true ->
  allow_death (location c) = false ->
  1 <= hp c <= hp_max c ->
  Forall no_negative_amount ks ->
  let r := do_calls roll_death ks c in
  1 <= hp (state_of r) <= hp_max c
  /\ hp_max (state_of r) = hp_max c
  /\ count_events is_RollDeath (trace_of r) = 0%nat.
Proof.
  intros Hpc Hloc Hhp Hks r. subst r.
  destruct (safe_at_calls roll_death (hp_max c) ks c Hks) as [(_ & _ & Hm & Hh) Hn].
  - unfold safe_at. repeat split; try assumption; apply Hhp.
  - repeat split; try assumption; apply Hh.
Qed.

Lemma safe_room_keeps_hp_in_range_witness :
  let r := do_calls roll_death_idle
             [CallDamage 25; CallDamage 3; CallHeal 1 HealerSelf; CallRecovery]
             (hero 10 10 sanctuary) in
  1 <= hp (state_of r) <= 10
  /\ count_events is_RollDeath (trace_of r) = 0%nat.
Proof.
  intros r.
  destruct (safe_room_keeps_hp_in_range roll_death_idle
              [CallDamage 25; CallDamage 3; CallHeal 1 HealerSelf; CallRecovery]
              (hero 10 10 sanctuary)) as (Hh & _ & Hn).
  - reflexivity.
  - reflexivity.
  - vm_compute. split; discriminate.
  - repeat constructor; simpl; lia.
  - split; [exact Hh | exact Hn].
Defined.

(** ** Spending *)

(** X9: [spend_stamina] and [spend_mana] never leave the pool reading 0: a
    pool that is spent completely reads 1 afterwards, so a pool that reads 1
    pays a cost of 1 as often as asked and still reads 1; a cost above what is
    there leaves a negative pool. *)
Theorem spent_pool_reads_one (n : nat) (amount : Z) (c : Char) :
  stamina (state_of (spend_stamina amount c)) <> 0
  /\ mana (state_of (spend_mana amount c)) <> 0
  /\ (amount = stamina c -> stamina (state_of (spend_stamina amount c)) = 1)
  /\ (amount = mana c -> mana (state_of (spend_mana amount c)) = 1)
  /\ (stamina c < amount -> stamina (state_of (spend_stamina amount c)) < 0)
  /\ (stamina c = 1 -> stamina (spend_stamina_times n 1 c) = 1).
Proof.
  split; [apply stamina_nonzero |]. split; [apply mana_nonzero |].
  split; [| split; [| split]].
  - intros ->. unfold spend_stamina, bind, read, modify, state_of. cbn [fst snd].
    rewrite stamina_with_stamina, Z.sub_diag. reflexivity.
  - intros ->. unfold spend_mana, bind, read, modify, state_of. cbn [fst snd].
    rewrite mana_with_mana, Z.sub_diag. reflexivity.
  - intros Hlt. unfold spend_stamina, bind, read, modify, state_of. cbn [fst snd].
    rewrite stamina_with_stamina.
    destruct (Z.eqb_spec (stamina c - amount) 0); lia.
  - revert c. induction n as [| n IH]; intros c Hc; [exact Hc |].
    cbn [spend_stamina_times]. apply IH.
    unfold spend_stamina, bind, read, modify, state_of. cbn [fst snd].
    rewrite stamina_with_stamina, Hc. reflexivity.
Qed.

Lemma spent_pool_reads_one_witness :
  stamina (state_of (spend_stamina 4 (new_Character "hero" sanctuary))) = 1
  /\ stamina (state_of (spend_stamina 6 (new_Character "hero" sanctuary))) < 0
  /\ stamina (spend_stamina_times 9 1
                (with_stamina 1 (new_Character "hero" sanctuary))) = 1.
Proof.
  pose proof (spent_pool_reads_one 9 4 (new_Character "hero" sanctuary))
    as (_ & _ & H1 & _).
  pose proof (spent_pool_reads_one 9 6 (new_Character "hero" sanctuary))
    as (_ & _ & _ & _ & H2 & _).
  pose proof (spent_pool_reads_one 9 1
                (with_stamina 1 (new_Character "hero" sanctuary)))
    as (_ & _ & _ & _ & _ & H3).
  split; [apply H1; reflexivity | split; [apply H2; vm_compute; reflexivity |]].
  apply H3. reflexivity.
Defined.

(** ** Paying and looting, once more *)

(** X10: what [at_pay] hands out and what it leaves add up to the purse it
    found, for every amount; asked for a non-negative amount from a
    non-negative purse it hands out between 0 and the purse and leaves the
    purse non-negative; asked for a negative amount it hands out that negative
    amount and the purse grows. *)
Theorem at_pay_conserves (amount : Z) (c : Char) :
  let paid := fst (fst (at_pay amount c)) in
  let c' := state_of (at_pay amount c) in
  paid + coins c' = coins c
  /\ paid <= amount
  /\ trace_of (at_pay amount c) = []
  /\ (0 <= amount -> 0 <= coins c -> 0 <= paid <= coins c /\ 0 <= coins c')
  /\ (amount < 0 -> 0 <= coins c -> paid = amount /\ coins c < coins c').
Proof.
  cbv zeta. rewrite at_pay_unfold. unfold state_of, trace_of. cbn [fst snd].
  rewrite coins_with_coins. repeat split; lia.
Qed.

Lemma at_pay_conserves_witness :
  fst (fst (at_pay 10 (with_coins 3 (goblin 5 5)))) = 3
  /\ coins (state_of (at_pay 10 (with_coins 3 (goblin 5 5)))) = 0
  /\ coins (state_of (at_pay (-2) (with_coins 3 (goblin 5 5)))) = 5.
Proof.
  pose proof (at_pay_conserves 10 (with_coins 3 (goblin 5 5)))
    as (Hsum & _ & _ & Hpos & _).
  pose proof (at_pay_conserves (-2) (with_coins 3 (goblin 5 5)))
    as (Hsum' & _ & _ & _ & Hneg).
  destruct Hpos as [Hp Hc]; [lia | vm_compute; discriminate |].
  destruct Hneg as [Hp' Hc']; [lia | vm_compute; discriminate |].
  cbv zeta in *.
  change (coins (with_coins 3 (goblin 5 5))) with 3 in *.
  repeat split; lia.
Defined.

(** X11: paying twice, each time a non-negative amount from a non-negative
    purse, hands out in total what one payment of the sum hands out,
    [min(a + b, coins)], and leaves the same purse. *)
Theorem at_pay_twice (a b : Z) (c : Char) :
  0 <= a -> 0 <= b -> 0 <= coins c ->
  let first := at_pay a c in
  let second := at_pay b (state_of first) in
  fst (fst first) + fst (fst second) = Z.min (a + b) (coins c)
  /\ state_of second = state_of (at_pay (a + b) c).
Proof.
  intros Ha Hb Hc. cbv zeta. rewrite !at_pay_unfold.
  unfold state_of. cbn [fst snd]. rewrite coins_with_coins.
  split; [lia |].
  unfold with_coins. cbn. f_equal. f_equal. lia.
Qed.

Lemma at_pay_twice_witness :
  fst (fst (at_pay 2 (with_coins 5 (goblin 5 5))))
  + fst (fst (at_pay 7 (state_of (at_pay 2 (with_coins 5 (goblin 5 5)))))) = 5.
Proof.
  apply (proj1 (at_pay_twice 2 7 (with_coins 5 (goblin 5 5))
                  ltac:(lia) ltac:(lia) ltac:(vm_compute; discriminate))).
Defined.

(** X12: looting the same victim once for each roll of a list of non-negative
    rolls, looter and victim being different objects, leaves the victim with
    [max(0, coins - sum of the rolls)], gives the looter exactly what the
    victim lost and touches no other object. *)
Theorem loot_times_drains (rolls : list Z) :
  forall (w : gmap nat Char) (victim looter : nat) (v l : Char),
    victim <> looter ->
    w !! victim = Some v ->
    w !! looter = Some l ->
    0 <= coins v ->
    Forall (fun r => 0 <= r) rolls ->
    exists w' : gmap nat Char,
      loot_times victim looter rolls w = Some w'
      /\ coins_of w' victim = Some (Z.max 0 (coins v - fold_right Z.add 0 rolls))
      /\ coins_of w' looter
         = Some (coins l + (coins v - Z.max 0 (coins v - fold_right Z.add 0 rolls)))
      /\ (forall other : nat,
             other <> victim -> other <> looter -> w' !! other = w !! other).
Proof.
  induction rolls as [| r rolls IH]; intros w victim looter v l Hne Hv Hl Hcv Hrolls.
  - exists w. cbn [loot_times fold_right]. unfold coins_of. rewrite Hv, Hl.
    cbn [fmap option_fmap option_map].
    repeat split; f_equal; lia.
  - inversion Hrolls as [| r' rolls' Hr Hrest E]; subst.
    assert (Hsum : 0 <= fold_right Z.add 0 rolls).
    { clear -Hrest. induction Hrest; cbn [fold_right]; lia. }
    cbn [loot_times fold_right].
    rewrite (BaseCharacter_at_looted_distinct w victim looter v l r Hne Hv Hl).
    set (v1 := with_coins (coins v - Z.min r (coins v)) v).
    set (l1 := with_coins (coins l + Z.min r (coins v)) l).
    assert (Hne' : looter <> victim) by (intros E; apply Hne; symmetry; exact E).
    destruct (IH (<[looter := l1]> (<[victim := v1]> w)) victim looter v1 l1)
      as (w' & Hrun & Hvic & Hloo & Hframe).
    + exact Hne.
    + rewrite lookup_insert_ne by exact Hne'. apply lookup_insert_eq.
    + apply lookup_insert_eq.
    + subst v1. rewrite coins_with_coins. lia.
    + exact Hrest.
    + exists w'. subst v1 l1. rewrite !coins_with_coins in *.
      split; [exact Hrun |]. split; [rewrite Hvic; f_equal; lia |].
      split; [rewrite Hloo; f_equal; lia |].
      intros other Hov Hol. rewrite (Hframe other Hov Hol).
      rewrite lookup_insert_ne by (intros E; apply Hol; symmetry; exact E).
      rewrite lookup_insert_ne by (intros E; apply Hov; symmetry; exact E).
      reflexivity.
Qed.

Lemma loot_times_drains_witness :
  let w : gmap nat Char :=
    <[1%nat := with_coins 12 (goblin (-1) 5)]>
      (<[2%nat := with_coins 4 (hero 10 10 wilderness)]> ∅) in
  exists w' : gmap nat Char,
    loot_times 1 2 [5; 9; 3] w = Some w'
    /\ coins_of w' 1%nat = Some 0
    /\ coins_of w' 2%nat = Some 16.
Proof.
  intros w.
  destruct (loot_times_drains [5; 9; 3] w 1%nat 2%nat
              (with_coins 12 (goblin (-1) 5)) (with_coins 4 (hero 10 10 wilderness)))
    as (w' & Hrun & Hvic & Hloo & _).
  - discriminate.
  - reflexivity.
  - reflexivity.
  - vm_compute. discriminate.
  - repeat constructor; lia.
  - exists w'. split; [exact Hrun | split; [exact Hvic | exact Hloo]].
Defined.

(** ** The cached character class *)

(** X13: once the [cclass] property has found a class, it answers with that
    class from the cache, also after [cclass_key] was set to another key: the
    setter does not clear the cache.  A lookup that found nothing is not
    cached: the next read looks the current key up again. *)
Theorem cclass_cache_outlives_key
    {CharacterClass : Type} (get : option string -> option CharacterClass)
    (s : ClassSlots CharacterClass) :
  (forall (k : CharacterClass) (key' : option string),
      fst (cclass get s) = Some k ->
      cclass get (set_cclass_key key' (snd (cclass get s)))
      = (Some k, set_cclass_key key' (snd (cclass get s))))
  /\ (fst (cclass get s) = None ->
      snd (cclass get s) = s
      /\ forall key' : option string,
          fst (cclass get (set_cclass_key key' s)) = get key').
Proof.
  destruct s as [key0 cache]. unfold cclass, set_cclass_key. cbn.
  destruct cache as [k0 |]; cbn.
  - split; [| discriminate]. intros k key' E. rewrite E. reflexivity.
  - split.
    + intros k key' E. rewrite E. reflexivity.
    + intros E. rewrite E. split; reflexivity.
Qed.

Lemma cclass_cache_outlives_key_witness :
  let get := fun key : option string =>
               match key with
               | Some "warrior" => Some 1%nat
               | Some "mage" => Some 2%nat
               | _ => None
               end in
  fst (cclass get (set_cclass_key (Some "mage")
                     (snd (cclass get (mkClassSlots (Some "warrior") None)))))
  = Some 1%nat
  /\ fst (cclass get (set_cclass_key (Some "mage") (mkClassSlots None None)))
     = Some 2%nat.
Proof.
  intros get.
  pose proof (cclass_cache_outlives_key get (mkClassSlots (Some "warrior") None))
    as [Hhit _].
  pose proof (cclass_cache_outlives_key get (mkClassSlots None None)) as [_ Hmiss].
  split.
  - rewrite (Hhit 1%nat (Some "mage") eq_refl). reflexivity.
  - destruct (Hmiss eq_refl) as [_ Hnext]. apply (Hnext (Some "mage")).
Defined.

(** ** The status in whole numbers *)

Lemma raw_percent_lt (t h m : Z) :
  0 < m ->
  (inject_Z t < 100 * (inject_Z h / inject_Z m))%Q <-> t * m < 100 * h.
Proof.
  intros Hm. destruct m as [| p | p]; try lia.
  unfold Qlt, Qdiv, Qmult, Qinv, inject_Z. cbn.
  rewrite ?Pos.mul_1_l, ?Pos.mul_1_r, ?Z.mul_1_r. tauto.
Qed.


(** The clamped percentage against a threshold below 100. *)
Lemma percent_of_lt (t h m : Z) :
  0 < m -> 0 <= t < 100 ->
  (inject_Z t < percent_of h m)%Q <-> t * m < 100 * h.
Proof.
  intros Hm Ht. rewrite <- (raw_percent_lt t h m Hm). unfold percent_of.
  assert (H0 : (0 <= inject_Z t)%Q)
    by (change (inject_Z 0 <= inject_Z t)%Q; rewrite <- Zle_Qle; lia).
  assert (H1 : (inject_Z t < 100)%Q)
    by (change (inject_Z t < inject_Z 100)%Q; rewrite <- Zlt_Qlt; lia).
  destruct (Q.max_spec 0 (Qmin 100 (100 * (inject_Z h / inject_Z m))))
    as [[A ->] | [A ->]];
    destruct (Q.min_spec 100 (100 * (inject_Z h / inject_Z m)))
      as [[B E] | [B E]]; rewrite ?E in *; split; intros; lra.
Qed.


Lemma percent_of_range (h m : Z) :
  (0 <= percent_of h m)%Q /\ (percent_of h m <= 100)%Q.
Proof.
  unfold percent_of.
  destruct (Q.max_spec 0 (Qmin 100 (100 * (inject_Z h / inject_Z m))))
    as [[A ->] | [A ->]];
    destruct (Q.min_spec 100 (100 * (inject_Z h / inject_Z m)))
      as [[B E] | [B E]]; rewrite ?E in *; split; lra.
Qed.





(** ** Defeat and the combat handler *)


(** ** Uses, once more *)

(** A use of an item whose counter reads at least 1 only writes the counter. *)
Lemma at_post_use_alive (i : Item) :
  1 <= uses i ->
  fst (at_post_use i) = with_uses (uses i - 1) i.
Proof.
  intros Hu. unfold at_post_use. destruct (item_class_of i).
  - rewrite ConsumableObject_at_post_use_unfold.
    destruct (Z.ltb_spec (uses i - 1) 0); [lia | reflexivity].
  - reflexivity.
Qed.

Lemma use_times_reading (n : nat) :
  forall i : Item,
    1 <= uses i ->
    uses (use_times n i) = Z.max 1 (uses i - Z.of_nat n)
    /\ deleted (use_times n i) = deleted i
    /\ (n <> 0%nat ->
        db_uses (use_times n i) = Some (Z.max 0 (uses i - Z.of_nat n))).
Proof.
  induction n as [| n IH]; intros i Hu.
  - cbn [use_times]. change (Z.of_nat 0) with 0.
    repeat split; [lia | intros H; contradiction H; reflexivity].
  - cbn [use_times]. rewrite (at_post_use_alive i Hu).
    assert (Hu1 : uses (with_uses (uses i - 1) i) = Z.max 1 (uses i - 1)).
    { rewrite uses_with_uses. destruct (Z.eqb_spec (uses i - 1) 0); lia. }
    destruct (IH (with_uses (uses i - 1) i)) as (Hr & Hd & Hs); [lia |].
    rewrite Hr, Hd, Hu1, Nat2Z.inj_succ.
    split; [lia | split; [reflexivity |]].
    intros _. destruct n as [| n'].
    + cbn [use_times db_uses with_uses]. f_equal. lia.
    + rewrite Hs by discriminate. rewrite Hu1. f_equal. lia.
Qed.

(** X17: an item of either class whose counter reads [u >= 1] has, after
    [n >= 1] uses, the stored counter [max(0, u - n)], which reads as
    [max(1, u - n)], and is not deleted: the counter stops at a stored 0 that
    reads as one use left. *)
Theorem use_times_counter (n : nat) (i : Item) :
  1 <= uses i ->
  n <> 0%nat ->
  db_uses (use_times n i) = Some (Z.max 0 (uses i - Z.of_nat n))
  /\ uses (use_times n i) = Z.max 1 (uses i - Z.of_nat n)
  /\ deleted (use_times n i) = deleted i.
Proof.
  intros Hu Hn. destruct (use_times_reading n i Hu) as (Hr & Hd & Hs).
  split; [apply Hs; exact Hn | split; [exact Hr | exact Hd]].
Qed.

Lemma use_times_counter_witness :
  let i := mkItem ConsumableObject "rations" (Some 3) false in
  db_uses (use_times 5 i) = Some 0
  /\ uses (use_times 5 i) = 1
  /\ deleted (use_times 5 i) = false.
Proof.
  intros i.
  apply (use_times_counter 5 i); [vm_compute; discriminate | discriminate].
Defined.

(** X18: for a runestone that stores one use, a use followed by [refresh]
    gives back the very same item; [refresh] gives one use whatever the counter
    was, so it takes uses away from a stone that had more than one. *)
Theorem refresh_restores_single_use (i : Item) :
  (db_uses i = Some 1 -> item_class_of i = Runestone ->
   refresh (fst (at_post_use i)) = i)
  /\ uses (refresh i) = 1
  /\ (1 < uses i -> uses (refresh i) < uses i).
Proof.
  split; [| split].
  - intros Hu Hcls. unfold at_post_use. rewrite Hcls.
    destruct i as [cls k u del]. cbn in *. subst. reflexivity.
  - reflexivity.
  - intros H. change (uses (refresh i)) with 1. exact H.
Qed.

Lemma refresh_restores_single_use_witness :
  refresh (fst (at_post_use (new_item Runestone "rune of fire")))
  = new_item Runestone "rune of fire"
  /\ uses (refresh (mkItem Runestone "rune of ice" (Some 3) false)) < 3.
Proof.
  pose proof (refresh_restores_single_use (new_item Runestone "rune of fire"))
    as (Hround & _ & _).
  pose proof (refresh_restores_single_use (mkItem Runestone "rune of ice" (Some 3) false))
    as (_ & _ & Hless).
  split; [apply Hround; reflexivity | apply Hless; vm_compute; reflexivity].
Defined.

(** X19: a plain consumable that is not yet deleted is deleted by a use, and
    reported as used up, exactly when its counter read 0 or less before the
    use; with a stored counter that is not negative this never happens. *)
Theorem consumable_used_up_iff (i : Item) :
  item_class_of i = ConsumableObject ->
  deleted i = false ->
  (deleted (fst (at_post_use i)) = true <-> uses i <= 0)
  /\ (snd (at_post_use i) = [UsedUp (item_key i)] <-> uses i <= 0)
  /\ (forall u : Z, db_uses i = Some u -> 0 <= u ->
         deleted (fst (at_post_use i)) = false /\ snd (at_post_use i) = []).
Proof.
  intros Hcls Hdel.
  split; [apply consumable_deleted_iff; assumption |].
  unfold at_post_use. rewrite Hcls, ConsumableObject_at_post_use_unfold.
  split.
  - destruct (Z.ltb_spec (uses i - 1) 0); cbn [snd].
    + split; [lia | reflexivity].
    + split; [discriminate | lia].
  - intros u Hu Hnn.
    assert (Hpos : 1 <= uses i).
    { unfold uses. rewrite Hu. cbn. destruct (Z.eqb_spec u 0); lia. }
    destruct (Z.ltb_spec (uses i - 1) 0); [lia |].
    cbn [fst snd]. split; [exact Hdel | reflexivity].
Qed.

Lemma consumable_used_up_iff_witness :
  deleted (fst (at_post_use (mkItem ConsumableObject "crumbs" (Some (-1)) false)))
  = true
  /\ deleted (fst (at_post_use (new_item ConsumableObject "potion"))) = false.
Proof.
  pose proof (consumable_used_up_iff
                (mkItem ConsumableObject "crumbs" (Some (-1)) false) eq_refl eq_refl)
    as (Hdel & _ & _).
  pose proof (consumable_used_up_iff (new_item ConsumableObject "potion")
                eq_refl eq_refl) as (_ & _ & Hkeep).
  split.
  - apply Hdel. vm_compute. discriminate.
  - apply (Hkeep 1 eq_refl). lia.
Defined.

(** X20: a non-player object that loots itself pays itself: the room is told
    the amount, but its purse, and every other object, is as before. *)
Theorem self_loot_keeps_purse (w : gmap nat Char) (self : nat) (v : Char) (r : Z) :
  w !! self = Some v ->
  is_pc v = false ->
  exists w' : gmap nat Char,
    at_do_loot self self r w
    = Some (w', [MsgContents (LootsYouFor (Z.min r (coins v)))])
    /\ coins_of w' self = Some (coins v)
    /\ (forall other : nat, other <> self -> w' !! other = w !! other).
Proof.
  intros Hv Hpc. unfold at_do_loot, at_looted. rewrite Hv, Hpc.
  unfold BaseCharacter_at_looted, on_object.
  rewrite Hv, at_pay_unfold. rewrite lookup_insert_eq.
  eexists. split; [reflexivity |]. split.
  - unfold coins_of. rewrite lookup_insert_eq. cbn [fmap option_fmap option_map].
    unfold add_coins, bind, read, modify. cbn [fst snd].
    rewrite !coins_with_coins. f_equal. lia.
  - intros other Hne.
    rewrite !lookup_insert_ne by (intros E; apply Hne; symmetry; exact E).
    reflexivity.
Qed.

Lemma self_loot_keeps_purse_witness :
  let w : gmap nat Char := <[7%nat := with_coins 3 (goblin (-1) 5)]> ∅ in
  exists w' : gmap nat Char,
    at_do_loot 7 7 10 w = Some (w', [MsgContents (LootsYouFor 3)])
    /\ coins_of w' 7%nat = Some 3.
Proof.
  intros w.
  destruct (self_loot_keeps_purse w 7%nat (with_coins 3 (goblin (-1) 5)) 10
              eq_refl eq_refl) as (w' & Hrun & Hc & _).
  exists w'. split; [exact Hrun | exact Hc].
Defined.

(** ** Status after healing and after damage *)

Lemma hurt_level_perfect (c : Char) :
  1 <= hp_max c -> 95 * hp_max c < 100 * hp c ->
  hurt_level c = Some "|gPerfect|n".
Proof.
  intros Hm Hhp. unfold hurt_level.
  destruct (hurt_level_of_bands (percent_of (hp c) (hp_max c))) as (B1 & _).
  apply B1. split; [| apply percent_of_range].
  change 95%Q with (inject_Z 95). apply percent_of_lt; lia.
Qed.

(** X21: a heal that covers the whole damage of a character (whose maximum is
    at least 1 and whose HP is not above it) leaves HP at the maximum and the
    status "Perfect". *)
Theorem full_heal_shows_perfect (amount : Z) (who : healer) (c : Char) :
  1 <= hp_max c -> hp c <= hp_max c -> hp_max c - hp c <= amount ->
  hp (state_of (heal amount who c)) = hp_max c
  /\ hurt_level (state_of (heal amount who c)) = Some "|gPerfect|n".
Proof.
  intros Hm Hle Ha. rewrite heal_unfold. unfold state_of. cbn [fst snd].
  replace (hp c + Z.min (hp_max c - hp c) amount) with (hp_max c) by lia.
  assert (Hhp : hp (with_hp (hp_max c) c) = hp_max c).
  { rewrite hp_with_hp. destruct (Z.eqb_spec (hp_max c) 0); lia. }
  split; [exact Hhp |].
  apply hurt_level_perfect.
  - change (hp_max (with_hp (hp_max c) c)) with (hp_max c). exact Hm.
  - rewrite Hhp. change (hp_max (with_hp (hp_max c) c)) with (hp_max c). lia.
Qed.

Lemma full_heal_shows_perfect_witness :
  hurt_level (state_of (heal 50 NoHealer (hero 7 10 sanctuary)))
  = Some "|gPerfect|n".
Proof.
  apply (proj2 (full_heal_shows_perfect 50 NoHealer (hero 7 10 sanctuary)
                  ltac:(vm_compute; discriminate) ltac:(vm_compute; discriminate)
                  ltac:(vm_compute; discriminate))).
Defined.


